(** * The email assistant of [notebooks/agent.ipynb]: triage router and
      tool-calling agent, as a shallow embedding.

    The notebook builds two LangGraph graphs.  The inner one, [agent],
    cycles [llm_call] -> [should_continue] -> [tool_handler] -> [llm_call];
    the outer one, [overall_workflow], runs [triage_router] and hands over
    to the inner graph as the node [response_agent] when the email needs a
    reply.

    The language model, the tool bodies and the prompt constants of
    [email_assistant.prompts] are not part of the notebook.  They are the
    fields of an environment record [Env]; every node is a function of the
    environment and of the graph state.  Calls that leave the program (a
    model call, a tool invocation) and the nodes the runtime executes are
    logged in a trace, so that "called once", "never executed" and "in this
    order" are statements about a list of events.

    The graph runtime is not part of the notebook either.  What the
    properties need of it is modelled: the way it runs the nodes along
    the edges and folds their updates into the state, its step budget
    ([agent_loop]), and the reducer of the [messages] channel, first
    without the message ids ([add_messages]) and then with them
    ([add_messages_ids]). *)

From Stdlib Require Import String List Arith Lia.
From stdpp Require Import base option list strings gmap.
Import ListNotations.

Open Scope string_scope.
Open Scope list_scope.

(** ** Data model *)

(** [tool_call["args"]]: a JSON object, kept as its key/value text. *)
Definition args : Type := list (string * string).

(** One entry of [AIMessage.tool_calls]: the dict with keys
    [name], [args] and [id]. *)
Record tool_call : Type := ToolCall {
  tc_name : string;
  tc_args : args;
  tc_id : string
}.

(** The turns of [state["messages"]].  Only an assistant turn has a
    [tool_calls] attribute; a tool turn carries the id of its call. *)
Inductive message : Type :=
| SystemMessage (content : string)
| HumanMessage (content : string)
| AIMessage (content : string) (tool_calls : list tool_call)
| ToolMessage (content : string) (tool_call_id : string).

(** The [email_input] dict of the notebook's examples. *)
Record email : Type := Email {
  author : string;
  to : string;
  subject : string;
  email_thread : string
}.

(** [class State(MessagesState)]: the [messages] channel (empty until
    written) and two plain keys, absent until written. *)
Record State : Type := mkState {
  messages : list message;
  email_input : option email;
  classification_decision : option string
}.

(** A node's return value: a dict holding some of the keys of [State]. *)
Record update : Type := mkUpdate {
  upd_messages : option (list message);
  upd_email_input : option email;
  upd_classification_decision : option string
}.

(** [class RouterSchema(BaseModel)]. *)
Record RouterSchema : Type := mkRouterSchema {
  reasoning : string;
  classification : string
}.

(** The targets [triage_router] may name in its [Command]. *)
Inductive goto_target : Type := response_agent | END_of_workflow.

Record Command : Type := mkCommand {
  goto : goto_target;
  cmd_update : update
}.

(** The return values of [should_continue]. *)
Inductive route : Type := route_tool_handler | route_END.

(** The four tools of the notebook. *)
Inductive tool : Type :=
| write_email
| schedule_meeting
| check_calendar_availability
| Done.

(** ** Exceptions, results and the trace monad *)

Inductive exn : Type :=
| ValueError (msg : string)
| KeyError (key : string)
| IndexError
| AttributeError (attr : string)
| GraphRecursionError
| External (msg : string).

Inductive result (A : Type) : Type :=
| Ok (a : A)
| Raise (e : exn).
Arguments Ok {A} a.
Arguments Raise {A} e.

(** What a run does that an observer can see: the nodes the runtime
    executes, and the calls to the model and to the tools. *)
Inductive event : Type :=
| Step (node_name : string)
| Classify (prompt : list message)
| Act (prompt : list message)
| Invoke (t : tool) (a : args).

(** A computation yields the events it caused and a value or an
    exception; the events before an exception are kept. *)
Definition M (A : Type) : Type := (list event * result A)%type.

Definition ret {A} (a : A) : M A := ([], Ok a).

Definition raise {A} (e : exn) : M A := ([], Raise e).

Definition emit (ev : event) : M unit := ([ev], Ok tt).

Definition lift {A} (r : result A) : M A := ([], r).

Definition bind {A B} (m : M A) (k : A -> M B) : M B :=
  match m with
  | (tr, Ok a) => let '(tr', r) := k a in (tr ++ tr', r)
  | (tr, Raise e) => (tr, Raise e)
  end.

Notation "x <- m ;; k" := (bind m (fun x => k))
  (at level 20, m at level 99, k at level 200).

Definition trace_of {A} (m : M A) : list event := fst m.
Definition outcome_of {A} (m : M A) : result A := snd m.

(** ** The environment: what the notebook imports or calls out to *)

Record Env : Type := mkEnv {
  (** [llm.with_structured_output(RouterSchema).invoke] *)
  llm_router : list message -> result RouterSchema;
  (** [llm.bind_tools(tools, tool_choice="any").invoke]: the content and
      the tool calls of the returned assistant message *)
  llm_with_tools : list message -> result (string * list tool_call);
  (** [tool.invoke(args)] *)
  invoke : tool -> args -> result string;
  (** constants and templates of [email_assistant.prompts] *)
  default_background : string;
  default_triage_instructions : string;
  default_response_preferences : string;
  default_cal_preferences : string;
  AGENT_TOOLS_PROMPT : string;
  (** [triage_user_prompt.format(author=, to=, subject=, email_thread=)] *)
  triage_user_prompt : string -> string -> string -> string -> string;
  (** [agent_system_prompt.format(tools_prompt=, background=,
      response_preferences=, cal_preferences=)] *)
  agent_system_prompt : string -> string -> string -> string -> string;
  (** [format_email_markdown(subject, author, to, email_thread)] *)
  format_email_markdown : string -> string -> string -> string -> string;
  (** the step budget the graph runtime gives one invocation of the
      agent graph (see [agent_loop]) *)
  recursion_limit : nat
}.

(** ** Helpers the notebook imports *)

(** Modelled from the spec: [parse_email] of [email_assistant.utils] is
    not in the notebook; the message has the fields author, recipients,
    subject and thread text, and the call site unpacks them in this
    order. *)
Definition parse_email (e : email) : string * string * string * string :=
  (author e, to e, subject e, email_thread e).

(** [triage_system_prompt.format(background=, triage_instructions=)]; the
    template is the one the notebook displays. *)
Definition triage_system_prompt (background triage_instructions : string)
  : string :=
  "

< Role >
Your role is to triage incoming emails based upon instructs and background information below.
</ Role >

< Background >
" ++ background ++ ". 
</ Background >

< Instructions >
Categorize each email into one of three categories:
1. IGNORE - Emails that are not worth responding to or tracking
2. NOTIFY - Important information that worth notification but doesn't require a response
3. RESPOND - Emails that need a direct response
Classify the below email into one of these categories.
</ Instructions >

< Rules >
" ++ triage_instructions ++ "
</ Rules >
".

(** ** State updates *)

(** The reducer of the [messages] channel, for turns whose message ids
    are new to the conversation: it appends.  The reducer with the ids,
    under which a turn that arrives with a known id replaces the turn
    that has it, is [add_messages_ids]; the two agree as long as the ids
    are new ([agent_loop_ids_erase]). *)
Definition add_messages (left right : list message) : list message :=
  left ++ right.

(** How the runtime folds a node's return value into the state: the
    [messages] channel through its reducer, a plain key by overwriting. *)
Definition apply_update (st : State) (u : update) : State :=
  {| messages :=
       match upd_messages u with
       | Some ms => add_messages (messages st) ms
       | None => messages st
       end;
     email_input :=
       match upd_email_input u with
       | Some e => Some e
       | None => email_input st
       end;
     classification_decision :=
       match upd_classification_decision u with
       | Some c => Some c
       | None => classification_decision st
       end |}.

(** ** Tools *)

Definition tool_name (t : tool) : string :=
  match t with
  | write_email => "write_email"
  | schedule_meeting => "schedule_meeting"
  | check_calendar_availability => "check_calendar_availability"
  | Done => "Done"
  end.

Definition tools : list tool :=
  [write_email; schedule_meeting; check_calendar_availability; Done].

(** [{tool.name: tool for tool in tools}]: a later entry would replace an
    earlier one of the same name. *)
Definition tools_by_name : gmap string tool :=
  foldl (fun m t => <[tool_name t := t]> m) ∅ tools.

(** [tools_by_name[name]] *)
Definition get_tool (name : string) : result tool :=
  match tools_by_name !! name with
  | Some t => Ok t
  | None => Raise (KeyError name)
  end.

(** [messages[-1]] *)
Definition last_message (ms : list message) : result message :=
  match last ms with
  | Some m => Ok m
  | None => Raise IndexError
  end.

(** [message.tool_calls]: only an assistant message has the attribute. *)
Definition tool_calls_of (m : message) : result (list tool_call) :=
  match m with
  | AIMessage _ tcs => Ok tcs
  | _ => Raise (AttributeError "tool_calls")
  end.

(** A [for] loop whose body may [return]: the first iteration that
    returns ends the loop; a loop that runs out falls through. *)
Fixpoint for_return {A R} (body : A -> option R) (l : list A) : option R :=
  match l with
  | [] => None
  | x :: l' =>
      match body x with
      | Some r => Some r
      | None => for_return body l'
      end
  end.

(** ** The nodes *)

Section Nodes.

Variable E : Env.

(** [llm_router.invoke(prompt)], logged. *)
Definition call_llm_router (prompt : list message) : M RouterSchema :=
  ([Classify prompt], llm_router E prompt).

(** [llm_with_tools.invoke(prompt)], logged. *)
Definition call_llm_with_tools (prompt : list message)
  : M (string * list tool_call) :=
  ([Act prompt], llm_with_tools E prompt).

(** [tool.invoke(args)], logged. *)
Definition call_invoke (t : tool) (a : args) : M string :=
  ([Invoke t a], invoke E t a).

(** The two messages [triage_router] sends to the router model. *)
Definition triage_prompt (e : email) : list message :=
  let '(author, to, subject, email_thread) := parse_email e in
  let system_prompt :=
    triage_system_prompt (default_background E)
                         (default_triage_instructions E) in
  let user_prompt :=
    triage_user_prompt E author to subject email_thread in
  [SystemMessage system_prompt; HumanMessage user_prompt].

(** [state["email_input"]] *)
Definition get_email_input (state : State) : result email :=
  match email_input state with
  | Some e => Ok e
  | None => Raise (KeyError "email_input")
  end.

(** The node; its [print] calls, which only write to the console, are
    left out. *)
Definition triage_router (state : State) : M Command :=
  e <- lift (get_email_input state) ;;
  let '(author, to, subject, email_thread) := parse_email e in
  result <- call_llm_router (triage_prompt e) ;;
  if String.eqb (classification result) "respond" then
    ret {| goto := response_agent;
           cmd_update :=
             {| upd_messages :=
                  Some [HumanMessage
                          ("Respond to the email: 

" ++ format_email_markdown E subject author to email_thread)];
                upd_email_input := None;
                upd_classification_decision :=
                  Some (classification result) |} |}
  else if String.eqb (classification result) "ignore" then
    ret {| goto := END_of_workflow;
           cmd_update :=
             {| upd_messages := None;
                upd_email_input := None;
                upd_classification_decision :=
                  Some (classification result) |} |}
  else if String.eqb (classification result) "notify" then
    ret {| goto := END_of_workflow;
           cmd_update :=
             {| upd_messages := None;
                upd_email_input := None;
                upd_classification_decision :=
                  Some (classification result) |} |}
  else
    raise (ValueError ("Invalid classification: " ++ classification result)).

(** The system turn [llm_call] puts in front of the conversation. *)
Definition agent_system_message : message :=
  SystemMessage
    (agent_system_prompt E (AGENT_TOOLS_PROMPT E) (default_background E)
       (default_response_preferences E) (default_cal_preferences E)).

Definition llm_call (state : State) : M update :=
  reply <- call_llm_with_tools ([agent_system_message] ++ messages state) ;;
  ret {| upd_messages := Some [AIMessage (fst reply) (snd reply)];
         upd_email_input := None;
         upd_classification_decision := None |}.

(** The body of the loop of [tool_handler], over the calls still to run;
    [result] is the list of tool messages built so far. *)
Fixpoint run_tool_calls (tcs : list tool_call) (result : list message)
  : M (list message) :=
  match tcs with
  | [] => ret result
  | tool_call :: rest =>
      t <- lift (get_tool (tc_name tool_call)) ;;
      observation <- call_invoke t (tc_args tool_call) ;;
      run_tool_calls rest
        (result ++ [ToolMessage observation (tc_id tool_call)])
  end.

Definition tool_handler (state : State) : M update :=
  last <- lift (last_message (messages state)) ;;
  tcs <- lift (tool_calls_of last) ;;
  result <- run_tool_calls tcs [] ;;
  ret {| upd_messages := Some result;
         upd_email_input := None;
         upd_classification_decision := None |}.

(** The body of the loop of [should_continue]: both branches return. *)
Definition should_continue_body (tool_call : tool_call) : option route :=
  if String.eqb (tc_name tool_call) "Done" then Some route_END
  else Some route_tool_handler.

(** [None] is Python's: the function ends without a [return]. *)
Definition should_continue (state : State) : result (option route) :=
  match last_message (messages state) with
  | Raise e => Raise e
  | Ok last =>
      match tool_calls_of last with
      | Raise e => Raise e
      | Ok tcs =>
          match tcs with
          | [] => Ok None
          | _ :: _ => Ok (for_return should_continue_body tcs)
          end
      end
  end.

(** ** The agent graph *)

Inductive node : Type := node_llm_call | node_tool_handler.

Definition node_name (n : node) : string :=
  match n with
  | node_llm_call => "llm_call"
  | node_tool_handler => "tool_handler"
  end.

(** Where the graph goes after a node: [Some n] for a node, [None] for
    [END]. *)
Definition next : Type := option node.

(** The conditional edge out of [llm_call]: the route [should_continue]
    returns is looked up in the path map
    [{"tool_handler": "tool_handler", END: END}]; the map has no entry for
    a missing return value. *)
Definition follow_should_continue (state : State) : result next :=
  match should_continue state with
  | Raise e => Raise e
  | Ok (Some route_tool_handler) => Ok (Some node_tool_handler)
  | Ok (Some route_END) => Ok None
  | Ok None => Raise (KeyError "None")
  end.

(** One step of the agent graph: run the node, fold its update into the
    state, follow the edge out of it. *)
Definition agent_step (n : node) (state : State) : M (next * State) :=
  _ <- emit (Step (node_name n)) ;;
  match n with
  | node_llm_call =>
      u <- llm_call state ;;
      let state' := apply_update state u in
      nx <- lift (follow_should_continue state') ;;
      ret (nx, state')
  | node_tool_handler =>
      u <- tool_handler state ;;
      ret (Some node_llm_call, apply_update state u)
  end.

(** Modelled from the spec: the bound on the rounds of the loop is not in
    the notebook, which compiles and invokes the graph without one.  It
    is the "fixed maximum number of Deciding/Dispatching rounds" of the
    specification, kept by the graph runtime as a step budget (its
    recursion limit, 25 unless the caller passes another): the runtime
    executes the nodes of the graph one after the other, and once the
    last step of the budget has run the invocation fails with the
    runtime's recursion error, also when that step led to [END].  [fuel]
    is the budget; the edges between the nodes are those of the
    notebook, in [agent_step].  The runtime refuses a budget below 1
    before the run starts; here such a run fails at once. *)
Fixpoint agent_loop (fuel : nat) (n : node) (state : State) : M State :=
  match fuel with
  | O => raise GraphRecursionError
  | S fuel' =>
      r <- agent_step n state ;;
      match fst r with
      | None =>
          match fuel' with
          | O => raise GraphRecursionError
          | S _ => ret (snd r)
          end
      | Some n' => agent_loop fuel' n' (snd r)
      end
  end.

(** [agent = overall_workflow.compile()], entered at [llm_call]. *)
Definition agent (state : State) : M State :=
  agent_loop (recursion_limit E) node_llm_call state.

(** ** The combined workflow *)

(** [START -> triage_router]; the [Command] it returns is applied and
    followed; [response_agent] has no outgoing edge.  The agent graph
    runs as a node on the state of the outer graph, whose keys it shares,
    and the state it ends in is the state of the outer graph.  Each
    graph has a step budget of its own; that of the outer graph, which
    its two steps exhaust only if the caller sets a budget of 2 or less,
    is left out. *)
Definition overall_workflow (input : State) : M State :=
  _ <- emit (Step "triage_router") ;;
  cmd <- triage_router input ;;
  let state := apply_update input (cmd_update cmd) in
  match goto cmd with
  | END_of_workflow => ret state
  | response_agent =>
      _ <- emit (Step "response_agent") ;;
      agent state
  end.

End Nodes.

(** ** Observations on traces and conversations *)

Definition is_Act (ev : event) : bool :=
  match ev with Act _ => true | _ => false end.

Definition is_Classify (ev : event) : bool :=
  match ev with Classify _ => true | _ => false end.

(** The number of [llm_with_tools.invoke] calls in a trace. *)
Definition act_calls (tr : list event) : nat :=
  length (filter (fun ev => is_Act ev = true) tr).

(** The number of [llm_router.invoke] calls in a trace. *)
Definition classify_calls (tr : list event) : nat :=
  length (filter (fun ev => is_Classify ev = true) tr).

(** The tool invocations of a trace, in the order they happened. *)
Definition invocations (tr : list event) : list (tool * args) :=
  flat_map (fun ev => match ev with Invoke t a => [(t, a)] | _ => [] end) tr.

(** The names of the nodes a trace executed, in order. *)
Definition steps (tr : list event) : list string :=
  flat_map (fun ev => match ev with Step n => [n] | _ => [] end) tr.

(** The ids of the tool calls requested in a conversation. *)
Definition call_ids (ms : list message) : list string :=
  flat_map (fun m => match m with
                     | AIMessage _ tcs => map tc_id tcs
                     | _ => []
                     end) ms.

(** The ids carried by the tool-result turns of a conversation. *)
Definition result_ids (ms : list message) : list string :=
  flat_map (fun m => match m with
                     | ToolMessage _ i => [i]
                     | _ => []
                     end) ms.

(** The number of tool-result turns that answer the call [id]. *)
Definition results_for (id : string) (ms : list message) : nat :=
  length (filter (fun i => i = id) (result_ids ms)).

(** ** A sample environment

    A router that answers with a fixed category, a model that answers by
    the number of turns it is shown, and tools that echo their name. *)

Definition sample_email : email :=
  {| author := "Alice Smith <alice.smith@company.com>";
     to := "John Doe <john.doe@company.com>";
     subject := "Quick question about API documentation";
     email_thread := "Could you help clarify if this was intentional?" |}.

Definition sample_input : State :=
  {| messages := []; email_input := Some sample_email;
     classification_decision := None |}.

Definition sample_router (category : string) (prompt : list message)
  : result RouterSchema :=
  Ok {| reasoning := "by rule"; classification := category |}.

Definition sample_invoke (t : tool) (a : args) : result string :=
  Ok ("ran " ++ tool_name t)%string.

Definition call_write : tool_call :=
  {| tc_name := "write_email";
     tc_args := [("to", "alice.smith@company.com"); ("subject", "Re: API");
                 ("content", "Both endpoints are intended.")];
     tc_id := "call_1" |}.

Definition call_done : tool_call :=
  {| tc_name := "Done"; tc_args := [("done", "true")]; tc_id := "call_2" |}.

Definition call_check : tool_call :=
  {| tc_name := "check_calendar_availability";
     tc_args := [("day", "Tuesday")]; tc_id := "call_3" |}.

(** First round: write the email and signal completion in one batch;
    later rounds: signal completion alone. *)
Definition model_write_and_done (prompt : list message)
  : result (string * list tool_call) :=
  if Nat.leb (length prompt) 2 then Ok ("", [call_write; call_done])
  else Ok ("", [{| tc_name := "Done"; tc_args := [("done", "true")];
                   tc_id := "call_9" |}]).

(** A model that never signals completion. *)
Definition model_never_done (prompt : list message)
  : result (string * list tool_call) :=
  Ok ("", [{| tc_name := "check_calendar_availability";
              tc_args := [("day", "Tuesday")];
              tc_id := String.append "call_"
                         (String.concat "" (map (fun _ => "i") prompt)) |}]).

Definition sample_env (router : list message -> result RouterSchema)
    (model : list message -> result (string * list tool_call))
    (limit : nat) : Env :=
  {| llm_router := router;
     llm_with_tools := model;
     invoke := sample_invoke;
     default_background := "I am John, a software engineer.";
     default_triage_instructions := "Ignore newsletters.";
     default_response_preferences := "Be concise.";
     default_cal_preferences := "30 minute meetings are preferred.";
     AGENT_TOOLS_PROMPT := "write_email, schedule_meeting, Done";
     triage_user_prompt := fun author to subject email_thread =>
       ("From: " ++ author ++ " To: " ++ to ++ " Subject: " ++ subject
        ++ " " ++ email_thread)%string;
     agent_system_prompt := fun tools_prompt background response cal =>
       (tools_prompt ++ " " ++ background ++ " " ++ response ++ " "
        ++ cal)%string;
     format_email_markdown := fun subject author to email_thread =>
       ("**Subject**: " ++ subject ++ " **From**: " ++ author
        ++ " **To**: " ++ to ++ " " ++ email_thread)%string;
     recursion_limit := limit |}.

(** ** The Memory Store of the specification *)

(** Modelled from the spec: the Memory Store is not in the notebook.  It
    is a key-namespaced store of preference documents, each an ordered
    list of text rules, with [Read(namespace)]. *)
Definition MemoryStore : Type := gmap string (list string).

Definition Read (store : MemoryStore) (namespace : string) : list string :=
  match store !! namespace with
  | Some rules => rules
  | None => []
  end.

(** A preference document as prompt text: one rule per line. *)
Definition render_rules (rules : list string) : string :=
  String.concat "
" rules.

(** Modelled from the spec: the decision context of the Triage Stage,
    "built from the message fields and the current background/triage-rule
    preference documents" read from the store. *)
Definition triage_prompt_of_store (E : Env) (store : MemoryStore)
    (e : email) : list message :=
  let '(author, to, subject, email_thread) := parse_email e in
  [SystemMessage
     (triage_system_prompt (render_rules (Read store "background"))
                           (render_rules (Read store "triage_rules")));
   HumanMessage (triage_user_prompt E author to subject email_thread)].

(** A store an operator has edited: the triage rules differ from the
    defaults of [sample_env]. *)
Definition sample_store : MemoryStore :=
  <["triage_rules" := ["Always answer Alice."]]>
    (<["background" := ["I am John, a software engineer."]]> ∅).

(** ** A run played again *)

(** [E2] runs the program of [E1]: the constants, the templates and the
    step budget are the same. *)
Definition same_program (E1 E2 : Env) : Prop :=
  default_background E1 = default_background E2 /\
  default_triage_instructions E1 = default_triage_instructions E2 /\
  default_response_preferences E1 = default_response_preferences E2 /\
  default_cal_preferences E1 = default_cal_preferences E2 /\
  AGENT_TOOLS_PROMPT E1 = AGENT_TOOLS_PROMPT E2 /\
  (forall a b c d, triage_user_prompt E1 a b c d
                   = triage_user_prompt E2 a b c d) /\
  (forall a b c d, agent_system_prompt E1 a b c d
                   = agent_system_prompt E2 a b c d) /\
  (forall a b c d, format_email_markdown E1 a b c d
                   = format_email_markdown E2 a b c d) /\
  recursion_limit E1 = recursion_limit E2.

(** The call an event logs gets from [E2] the answer it got from [E1]. *)
Definition same_answer (E1 E2 : Env) (ev : event) : Prop :=
  match ev with
  | Step _ => True
  | Classify prompt => llm_router E2 prompt = llm_router E1 prompt
  | Act prompt => llm_with_tools E2 prompt = llm_with_tools E1 prompt
  | Invoke t a => invoke E2 t a = invoke E1 t a
  end.

(** [E] with another agent model and other tools. *)
Definition with_model_and_tools (E : Env)
    (model : list message -> result (string * list tool_call))
    (tool_invoke : tool -> args -> result string) : Env :=
  {| llm_router := llm_router E;
     llm_with_tools := model;
     invoke := tool_invoke;
     default_background := default_background E;
     default_triage_instructions := default_triage_instructions E;
     default_response_preferences := default_response_preferences E;
     default_cal_preferences := default_cal_preferences E;
     AGENT_TOOLS_PROMPT := AGENT_TOOLS_PROMPT E;
     triage_user_prompt := triage_user_prompt E;
     agent_system_prompt := agent_system_prompt E;
     format_email_markdown := format_email_markdown E;
     recursion_limit := recursion_limit E |}.

(** ** Tool-call ids and their results *)

(** Calls have distinct ids, results have distinct ids, and every result
    answers a call of the conversation. *)
Definition conversation_ok (ms : list message) : Prop :=
  NoDup (call_ids ms) /\ NoDup (result_ids ms) /\
  (forall id, id ∈ result_ids ms -> id ∈ call_ids ms).

(** What holds of the conversation when node [n] is about to run: before
    [tool_handler] the last turn is the assistant's, and its calls are
    the only ones without a result yet to come. *)
Definition node_ready (n : node) (ms : list message) : Prop :=
  match n with
  | node_llm_call => conversation_ok ms
  | node_tool_handler =>
      exists pre content tcs,
        ms = pre ++ [AIMessage content tcs] /\
        NoDup (call_ids ms) /\ NoDup (result_ids pre) /\
        (forall id, id ∈ result_ids pre -> id ∈ call_ids pre)
  end.

(** The model numbers its calls: the ids of one answer are distinct and
    occur nowhere in the conversation it was shown. *)
Definition fresh_ids (E : Env) : Prop :=
  forall prompt content tcs,
    llm_with_tools E prompt = Ok (content, tcs) ->
    NoDup (map tc_id tcs) /\
    (forall id, id ∈ map tc_id tcs -> id ∉ call_ids prompt).

(** A model whose every answer is one call; its id is longer than every
    id of the conversation it is shown. *)
Definition model_counting (prompt : list message)
  : result (string * list tool_call) :=
  Ok ("", [{| tc_name := "check_calendar_availability";
              tc_args := [("day", "Tuesday")];
              tc_id := fold_right String.append "i" (call_ids prompt) |}]).

(** ** More observations on runs *)

(** The tool calls the assistant turns of a conversation request, in the
    order of the conversation. *)
Definition requested (ms : list message) : list tool_call :=
  flat_map (fun m => match m with
                     | AIMessage _ tcs => tcs
                     | _ => []
                     end) ms.

(** A requested call and an invocation, each as the name of the tool and
    the arguments. *)
Definition call_name_args (tc : tool_call) : string * args :=
  (tc_name tc, tc_args tc).

Definition invocation_name_args (inv : tool * args) : string * args :=
  (tool_name (fst inv), snd inv).

(** The node the agent graph runs after [n] when it goes on. *)
Definition other_node (n : node) : node :=
  match n with
  | node_llm_call => node_tool_handler
  | node_tool_handler => node_llm_call
  end.

(** The names of [k] nodes taken in turn, starting with [n]. *)
Fixpoint alternating (n : node) (k : nat) : list string :=
  match k with
  | O => []
  | S k' => node_name n :: alternating (other_node n) k'
  end.

(** ** The evaluation notebook *)

(** [d[k]] on a dict. *)
Definition dict_get {V} (d : gmap string V) (k : string) : result V :=
  match d !! k with
  | Some v => Ok v
  | None => Raise (KeyError k)
  end.

Section Evaluation.

(** [str.lower], a builtin. *)
Variable lower : string -> string.

(** [classification_evaluator(outputs, reference_outputs)]: the left
    operand of [==] is evaluated first. *)
Definition classification_evaluator
    (outputs reference_outputs : gmap string string) : result bool :=
  match dict_get outputs "classification_decision" with
  | Raise e => Raise e
  | Ok decision =>
      match dict_get reference_outputs "classification" with
      | Raise e => Raise e
      | Ok reference => Ok (String.eqb (lower decision) (lower reference))
      end
  end.

(** [target_email_assistant(inputs)], over the triage node it invokes:
    the node is given a state that holds the email only, and the
    classification is read off the update of the [Command] it returns. *)
Definition target_email_assistant (triage_node : State -> M Command)
    (inputs : gmap string email) : M (gmap string string) :=
  e <- lift (dict_get inputs "email_input") ;;
  response <- triage_node {| messages := []; email_input := Some e;
                             classification_decision := None |} ;;
  match upd_classification_decision (cmd_update response) with
  | Some c => ret {["classification_decision" := c]}
  | None => raise (KeyError "classification_decision")
  end.

(** The list [missing_calls] of [test_email_dataset_tool_calls], over the
    names [extract_tool_calls] returned. *)
Definition missing_calls (expected_calls extracted_tool_calls : list string)
  : list string :=
  filter (fun call => lower call ∉ extracted_tool_calls) expected_calls.

(** The test's assertion, [len(missing_calls) == 0]. *)
Definition tool_calls_test_passes
    (expected_calls extracted_tool_calls : list string) : bool :=
  Nat.eqb (length (missing_calls expected_calls extracted_tool_calls)) 0.

End Evaluation.

(** A stand-in for [str.lower] on ASCII text: the letters A to Z become a
    to z, every other character is kept. *)
Definition lower_char (c : Ascii.ascii) : Ascii.ascii :=
  let n := Ascii.nat_of_ascii c in
  if Nat.leb 65 n && Nat.leb n 90 then Ascii.ascii_of_nat (n + 32) else c.

Fixpoint ascii_lower (s : string) : string :=
  match s with
  | EmptyString => EmptyString
  | String c s' => String (lower_char c) (ascii_lower s')
  end.

(** A model that asks for the calendar, then writes the email, then
    signals completion. *)
Definition model_three_rounds (prompt : list message)
  : result (string * list tool_call) :=
  if Nat.leb (length prompt) 2 then Ok ("", [call_check])
  else if Nat.leb (length prompt) 4 then Ok ("", [call_write])
  else Ok ("", [call_done]).

(** A model that asks for a tool the notebook does not have, after one
    it has. *)
Definition model_unknown_tool (prompt : list message)
  : result (string * list tool_call) :=
  Ok ("", [call_check;
           {| tc_name := "send_sms"; tc_args := [("to", "Alice")];
              tc_id := "call_7" |};
           call_write]).

(** Tools of which [write_email] is out of order. *)
Definition invoke_mail_down (t : tool) (a : args) : result string :=
  match t with
  | write_email => Raise (External "mail server unreachable")
  | _ => Ok ("ran " ++ tool_name t)%string
  end.

(** A model that signals completion and asks for an email in the same
    batch, "Done" first. *)
Definition model_done_then_write (prompt : list message)
  : result (string * list tool_call) :=
  Ok ("", [call_done; call_write]).

(** A model that asks for the calendar and then signals completion,
    giving each call an id longer than every id it is shown. *)
Definition model_counting_done (prompt : list message)
  : result (string * list tool_call) :=
  Ok ("", [{| tc_name := if Nat.leb (length prompt) 2
                         then "check_calendar_availability" else "Done";
              tc_args := [];
              tc_id := fold_right String.append "i" (call_ids prompt) |}]).

(** The conversations a trace shows the agent model: each prompt of an
    [llm_with_tools] call, in order. *)
Definition act_prompts (tr : list event) : list (list message) :=
  flat_map (fun ev => match ev with Act p => [p] | _ => [] end) tr.

(** ** A model that never signals completion, in general *)


(** ** Message ids

    In the state of the graph every turn carries a message id.  A turn
    that arrives without one is given an id the runtime draws at random;
    a turn that arrives with the id of a turn already in the
    conversation takes the place of that turn.  The nodes read the roles,
    contents and tool calls of the turns only, so the definitions above
    leave the ids out; the definitions below keep them. *)

(** A turn with the message id it has in the state. *)
Definition stamped : Type := (string * message)%type.

(** What one execution brings along, for the [k]-th turn that arrives in
    the conversation: the id the runtime draws for it, should it arrive
    without one, and the id it carries if it is a reply of the model and
    the model gave it one. *)
Record IdSource : Type := mkIdSource {
  uuid4 : nat -> string;
  reply_id : nat -> option string
}.

(** Put [m] in the place of the turn with this id, the last such turn if
    there are several; [None] when no turn has the id. *)
Fixpoint replace_by_id (id : string) (m : message) (l : list stamped)
  : option (list stamped) :=
  match l with
  | [] => None
  | x :: l' =>
      match replace_by_id id m l' with
      | Some l'' => Some (x :: l'')
      | None =>
          if String.eqb (fst x) id then Some ((id, m) :: l') else None
      end
  end.

(** Modelled from the library: [add_messages(left, right)], the reducer
    of the [messages] channel, is not in the notebook.  [given k] is the
    id the [k]-th turn arrives with, if it has one; a turn without an id
    gets the id drawn for it.  A turn whose id is in the list replaces
    the turn with that id, any other turn is appended.  [arrived] counts
    the turns that have arrived so far. *)
Fixpoint add_messages_ids (uuid : nat -> string)
    (given : nat -> option string) (left : list stamped) (arrived : nat)
    (right : list message) : list stamped * nat :=
  match right with
  | [] => (left, arrived)
  | m :: right' =>
      let id := match given arrived with
                | Some i => i
                | None => uuid arrived
                end in
      let merged := match replace_by_id id m left with
                    | Some l => l
                    | None => left ++ [(id, m)]
                    end in
      add_messages_ids uuid given merged (S arrived) right'
  end.

(** The state of the graph with the message ids. *)
Record IState : Type := mkIState {
  imessages : list stamped;
  arrived : nat;
  iemail_input : option email;
  iclassification_decision : option string
}.

(** What the nodes see of it. *)
Definition erase (s : IState) : State :=
  {| messages := map snd (imessages s);
     email_input := iemail_input s;
     classification_decision := iclassification_decision s |}.

(** No turn arrives with an id: the case of the turns a node builds
    from dicts. *)
Definition no_id (k : nat) : option string := None.

(** [apply_update] with the ids; [given] tells the ids the new turns
    arrive with. *)
Definition apply_update_ids (src : IdSource) (s : IState) (u : update)
    (given : nat -> option string) : IState :=
  let merged :=
    match upd_messages u with
    | Some new =>
        add_messages_ids (uuid4 src) given (imessages s) (arrived s) new
    | None => (imessages s, arrived s)
    end in
  {| imessages := fst merged;
     arrived := snd merged;
     iemail_input :=
       match upd_email_input u with
       | Some e => Some e
       | None => iemail_input s
       end;
     iclassification_decision :=
       match upd_classification_decision u with
       | Some c => Some c
       | None => iclassification_decision s
       end |}.

(** [agent_step] with the ids: the turn [llm_call] returns is the
    model's reply, with the id the model gave it; the turns
    [tool_handler] returns are dicts. *)
Definition agent_step_ids (src : IdSource) (E : Env) (n : node) (s : IState)
  : M (next * IState) :=
  _ <- emit (Step (node_name n)) ;;
  match n with
  | node_llm_call =>
      u <- llm_call E (erase s) ;;
      let s' := apply_update_ids src s u (reply_id src) in
      nx <- lift (follow_should_continue (erase s')) ;;
      ret (nx, s')
  | node_tool_handler =>
      u <- tool_handler E (erase s) ;;
      ret (Some node_llm_call, apply_update_ids src s u no_id)
  end.

(** [agent_loop] with the ids. *)
Fixpoint agent_loop_ids (src : IdSource) (E : Env) (fuel : nat) (n : node)
    (s : IState) : M IState :=
  match fuel with
  | O => raise GraphRecursionError
  | S fuel' =>
      r <- agent_step_ids src E n s ;;
      match fst r with
      | None =>
          match fuel' with
          | O => raise GraphRecursionError
          | S _ => ret (snd r)
          end
      | Some n' => agent_loop_ids src E fuel' n' (snd r)
      end
  end.

(** [overall_workflow] with the ids; the turn in the [Command] of
    [triage_router] is a dict. *)
Definition overall_workflow_ids (src : IdSource) (E : Env) (input : IState)
  : M IState :=
  _ <- emit (Step "triage_router") ;;
  cmd <- triage_router E (erase input) ;;
  let s := apply_update_ids src input (cmd_update cmd) no_id in
  match goto cmd with
  | END_of_workflow => ret s
  | response_agent =>
      _ <- emit (Step "response_agent") ;;
      agent_loop_ids src E (recursion_limit E) node_llm_call s
  end.

(** The ids the [k]-th turn may get: the one drawn for it and the one
    the model gives it. *)
Definition brought (src : IdSource) (k : nat) : list string :=
  uuid4 src k :: match reply_id src k with
                 | Some i => [i]
                 | None => []
                 end.

(** The ids of an execution are all new: no id is brought for two turns,
    and none that the conversation has is brought for a turn still to
    arrive. *)
Definition fresh_draws (src : IdSource) (s : IState) : Prop :=
  (forall j k i, i ∈ brought src j -> i ∈ brought src k -> j = k) /\
  (forall k i, arrived s <= k -> i ∈ brought src k ->
               i ∉ map fst (imessages s)).

(** Two executions with the same model: its replies carry the ids "r",
    "rr", ... in both; the ids the runtime draws are "a", "aa", ... in
    one and "b", "bb", ... in the other. *)
Definition letters (c : string) (k : nat) : string :=
  fold_right String.append "" (repeat c (S k)).

Definition source_a : IdSource :=
  {| uuid4 := letters "a"; reply_id := fun k => Some (letters "r" k) |}.

Definition source_b : IdSource :=
  {| uuid4 := letters "b"; reply_id := fun k => Some (letters "r" k) |}.

(** Two executions in which every reply of the model carries the id
    "a", which the runtime draws for the first turn in the one and never
    draws in the other. *)
Definition source_reusing_a : IdSource :=
  {| uuid4 := letters "a"; reply_id := fun _ => Some "a" |}.

Definition source_reusing_b : IdSource :=
  {| uuid4 := letters "b"; reply_id := fun _ => Some "a" |}.

Definition sample_istate : IState :=
  {| imessages := []; arrived := 0; iemail_input := Some sample_email;
     iclassification_decision := None |}.

(** A recording of the run with [model_three_rounds] and
    [sample_invoke]: the answers to the calls that run makes, and an
    exception for every call it does not make. *)
Definition model_recorded (prompt : list message)
  : result (string * list tool_call) :=
  if Nat.leb (length prompt) 6 then model_three_rounds prompt
  else Raise (External "no recorded answer").

Definition invoke_recorded (t : tool) (a : args) : result string :=
  match t with
  | write_email | check_calendar_availability => sample_invoke t a
  | _ => Raise (External "no recorded result")
  end.

(** Tools that answer otherwise than [sample_invoke]. *)
Definition invoke_busy (t : tool) (a : args) : result string :=
  Ok "no slot is free".

(** A batch in which the model gives two calls the same id. *)
Definition call_check_again : tool_call :=
  {| tc_name := "check_calendar_availability";
     tc_args := [("day", "Wednesday")]; tc_id := "call_3" |}.

(** A computation seen through [f]: the same events, the value mapped. *)
Definition map_outcome {A B} (f : A -> B) (m : M A) : M B :=
  (fst m, match snd m with
          | Ok a => Ok (f a)
          | Raise x => Raise x
          end).

(** * Properties *)

(** ** The trace monad *)

Lemma bind_Ok {A B} (tr : list event) (a : A) (k : A -> M B) :
  bind (tr, Ok a) k = (tr ++ fst (k a), snd (k a)).
Proof. unfold bind. destruct (k a); reflexivity. Qed.

Lemma bind_Raise {A B} (tr : list event) (e : exn) (k : A -> M B) :
  bind (tr, Raise e) k = (tr, Raise e).
Proof. reflexivity. Qed.

Lemma bind_lift_Ok {A B} (a : A) (k : A -> M B) :
  bind (lift (Ok a)) k = k a.
Proof. unfold lift. rewrite bind_Ok. simpl. destruct (k a); reflexivity. Qed.

Lemma bind_emit {B} (ev : event) (k : unit -> M B) :
  bind (emit ev) k = (ev :: fst (k tt), snd (k tt)).
Proof. unfold emit. rewrite bind_Ok. reflexivity. Qed.

(** A bind that succeeds splits into two computations that succeed. *)
Lemma bind_inv_Ok {A B} (m : M A) (k : A -> M B) tr (b : B) :
  bind m k = (tr, Ok b) ->
  exists tr1 a tr2, m = (tr1, Ok a) /\ k a = (tr2, Ok b) /\ tr = tr1 ++ tr2.
Proof.
  destruct m as [tr1 [a|e]]; simpl.
  - destruct (k a) as [tr2 r] eqn:Hk. intros H. inversion H; subst.
    exists tr1, a, tr2. auto.
  - discriminate.
Qed.

Lemma act_calls_app (tr1 tr2 : list event) :
  act_calls (tr1 ++ tr2) = act_calls tr1 + act_calls tr2.
Proof. unfold act_calls. rewrite filter_app, length_app. reflexivity. Qed.

Lemma call_ids_app (ms1 ms2 : list message) :
  call_ids (ms1 ++ ms2) = call_ids ms1 ++ call_ids ms2.
Proof. unfold call_ids. apply flat_map_app. Qed.

Lemma result_ids_app (ms1 ms2 : list message) :
  result_ids (ms1 ++ ms2) = result_ids ms1 ++ result_ids ms2.
Proof. unfold result_ids. apply flat_map_app. Qed.

(** ** [messages[-1]] *)

Lemma last_message_snoc (ms : list message) (m : message) :
  last_message (ms ++ [m]) = Ok m.
Proof. unfold last_message. rewrite last_snoc. reflexivity. Qed.

Lemma last_message_Ok (ms : list message) (m : message) :
  last_message ms = Ok m -> exists pre, ms = pre ++ [m].
Proof.
  unfold last_message. destruct (last ms) as [m'|] eqn:Hl; [|discriminate].
  intros H. inversion H; subst. apply last_Some in Hl. exact Hl.
Qed.

(** ** [should_continue] *)

Lemma for_return_should_continue (tc : tool_call) (rest : list tool_call) :
  for_return should_continue_body (tc :: rest) = should_continue_body tc.
Proof.
  simpl. unfold should_continue_body.
  destruct (String.eqb (tc_name tc) "Done"); reflexivity.
Qed.

Lemma should_continue_snoc_AI pre content tcs e d :
  should_continue (mkState (pre ++ [AIMessage content tcs]) e d)
  = match tcs with
    | [] => Ok None
    | tc :: _ => Ok (should_continue_body tc)
    end.
Proof.
  unfold should_continue. simpl messages. rewrite last_message_snoc.
  simpl. destruct tcs as [|tc rest]; [reflexivity|].
  rewrite for_return_should_continue. reflexivity.
Qed.

(** C9.  [should_continue] returns a route exactly when the last message
    has a tool call.  With a non-empty list of tool calls the route is
    [END] if the first call is named "Done" and "tool_handler" otherwise,
    whatever the calls after the first are; with an empty list the
    function ends without a return value. *)
Theorem should_continue_decided_by_first_call :
  forall (pre : list message) (content : string) (e : option email)
         (d : option string),
    (forall (tc : tool_call) (rest : list tool_call),
        should_continue (mkState (pre ++ [AIMessage content (tc :: rest)]) e d)
        = Ok (Some (if String.eqb (tc_name tc) "Done"
                    then route_END else route_tool_handler))) /\
    (forall (tc : tool_call) (rest rest' : list tool_call),
        should_continue (mkState (pre ++ [AIMessage content (tc :: rest)]) e d)
        = should_continue
            (mkState (pre ++ [AIMessage content (tc :: rest')]) e d)) /\
    should_continue (mkState (pre ++ [AIMessage content []]) e d) = Ok None.
Proof.
  intros pre content e d. split; [|split].
  - intros tc rest. rewrite should_continue_snoc_AI.
    unfold should_continue_body.
    destruct (String.eqb (tc_name tc) "Done"); reflexivity.
  - intros tc rest rest'. rewrite !should_continue_snoc_AI. reflexivity.
  - apply should_continue_snoc_AI.
Qed.

(** ** The loop nodes write [messages] only *)

Lemma llm_call_inv (E : Env) (st : State) tr u :
  llm_call E st = (tr, Ok u) ->
  exists content tcs,
    llm_with_tools E ([agent_system_message E] ++ messages st)
    = Ok (content, tcs) /\
    tr = [Act ([agent_system_message E] ++ messages st)] /\
    u = {| upd_messages := Some [AIMessage content tcs];
           upd_email_input := None;
           upd_classification_decision := None |}.
Proof.
  unfold llm_call, call_llm_with_tools.
  destruct (llm_with_tools E _) as [[content tcs]|e] eqn:Hm.
  - rewrite bind_Ok. simpl. intros H. inversion H; subst.
    exists content, tcs. auto.
  - rewrite bind_Raise. discriminate.
Qed.

Lemma tool_handler_inv (E : Env) (st : State) tr u :
  tool_handler E st = (tr, Ok u) ->
  exists pre content tcs results,
    messages st = pre ++ [AIMessage content tcs] /\
    run_tool_calls E tcs [] = (tr, Ok results) /\
    u = {| upd_messages := Some results;
           upd_email_input := None;
           upd_classification_decision := None |}.
Proof.
  unfold tool_handler.
  destruct (last_message (messages st)) as [m|e] eqn:Hl;
    [|unfold lift; rewrite bind_Raise; discriminate].
  rewrite bind_lift_Ok.
  destruct (tool_calls_of m) as [tcs|e] eqn:Ht;
    [|unfold lift; rewrite bind_Raise; discriminate].
  rewrite bind_lift_Ok.
  destruct (run_tool_calls E tcs []) as [tr' [results|e]] eqn:Hr.
  - rewrite bind_Ok. simpl. rewrite app_nil_r. intros H. inversion H; subst.
    apply last_message_Ok in Hl. destruct Hl as [pre Hpre].
    destruct m; try discriminate. simpl in Ht. inversion Ht; subst.
    exists pre, content, tcs, results. auto.
  - rewrite bind_Raise. discriminate.
Qed.

(** C10.  An update returned by [llm_call] or by [tool_handler] has the
    [messages] key only, so the state after the node has the
    [email_input] and the [classification_decision] it had before. *)
Theorem loop_nodes_update_messages_only :
  forall (E : Env) (st : State) (tr : list event) (u : update),
    llm_call E st = (tr, Ok u) \/ tool_handler E st = (tr, Ok u) ->
    upd_messages u <> None /\
    upd_email_input u = None /\
    upd_classification_decision u = None /\
    email_input (apply_update st u) = email_input st /\
    classification_decision (apply_update st u) = classification_decision st.
Proof.
  intros E st tr u [H|H].
  - apply llm_call_inv in H. destruct H as (content & tcs & _ & _ & ->).
    simpl. repeat split; discriminate.
  - apply tool_handler_inv in H.
    destruct H as (pre & content & tcs & results & _ & _ & ->).
    simpl. repeat split; discriminate.
Qed.

Lemma loop_nodes_update_messages_only_witness :
  let E := sample_env (sample_router "respond") model_write_and_done 25 in
  let st := mkState [HumanMessage "Respond to the email"]
                    (Some sample_email) (Some "respond") in
  let u := mkUpdate (Some [AIMessage "" [call_write; call_done]]) None None in
  email_input (apply_update st u) = Some sample_email /\
  classification_decision (apply_update st u) = Some "respond".
Proof.
  intros E st u.
  destruct (loop_nodes_update_messages_only E st
              [Act ([agent_system_message E] ++ messages st)] u
              (or_introl eq_refl)) as (_ & _ & _ & He & Hc).
  split; [exact He | exact Hc].
Defined.

(** ** The triage stage *)

(** What [triage_router] does once the router model has answered [r]. *)
Lemma triage_router_answered (E : Env) (st : State) (e : email)
    (r : RouterSchema) :
  email_input st = Some e ->
  llm_router E (triage_prompt E e) = Ok r ->
  triage_router E st =
  ([Classify (triage_prompt E e)],
   if String.eqb (classification r) "respond" then
     Ok {| goto := response_agent;
           cmd_update :=
             {| upd_messages :=
                  Some [HumanMessage
                          ("Respond to the email: 

" ++ format_email_markdown E (subject e) (author e) (to e) (email_thread e))];
                upd_email_input := None;
                upd_classification_decision := Some (classification r) |} |}
   else if String.eqb (classification r) "ignore"
           || String.eqb (classification r) "notify" then
     Ok {| goto := END_of_workflow;
           cmd_update :=
             {| upd_messages := None;
                upd_email_input := None;
                upd_classification_decision := Some (classification r) |} |}
   else Raise (ValueError ("Invalid classification: " ++ classification r))).
Proof.
  intros He Hr. unfold triage_router, get_email_input. rewrite He.
  rewrite bind_lift_Ok. destruct e as [a t s th]. cbn [parse_email author to
    subject email_thread]. unfold call_llm_router. rewrite Hr.
  rewrite bind_Ok. cbn [author to subject email_thread].
  destruct (String.eqb (classification r) "respond"); [reflexivity|].
  destruct (String.eqb (classification r) "ignore"); [reflexivity|].
  destruct (String.eqb (classification r) "notify"); reflexivity.
Qed.

Lemma triage_router_trace (E : Env) (st : State) (e : email) :
  email_input st = Some e ->
  trace_of (triage_router E st) = [Classify (triage_prompt E e)].
Proof.
  intros He. unfold triage_router, get_email_input. rewrite He.
  rewrite bind_lift_Ok. destruct e as [a t s th]. cbn [parse_email].
  unfold call_llm_router.
  destruct (llm_router E _) as [r|x]; [|reflexivity].
  rewrite bind_Ok. unfold trace_of. cbn [fst]. 
  destruct (String.eqb (classification r) "respond"); [reflexivity|].
  destruct (String.eqb (classification r) "ignore"); [reflexivity|].
  destruct (String.eqb (classification r) "notify"); reflexivity.
Qed.

Lemma overall_workflow_unfold (E : Env) (input : State) :
  overall_workflow E input =
  bind (emit (Step "triage_router")) (fun _ =>
  bind (triage_router E input) (fun cmd =>
    match goto cmd with
    | END_of_workflow => ret (apply_update input (cmd_update cmd))
    | response_agent =>
        bind (emit (Step "response_agent")) (fun _ =>
          agent E (apply_update input (cmd_update cmd)))
    end)).
Proof. reflexivity. Qed.

(** C4.  When the router model answers with a category that is none of
    "respond", "ignore" and "notify", [triage_router] raises [ValueError]
    after its one model call: it returns no [Command], so there is neither
    a route nor a state update, and the workflow fails with that error
    before any other node runs. *)
Theorem triage_router_rejects_unknown_category :
  forall (E : Env) (st : State) (e : email) (r : RouterSchema),
    email_input st = Some e ->
    llm_router E (triage_prompt E e) = Ok r ->
    classification r <> "respond" ->
    classification r <> "ignore" ->
    classification r <> "notify" ->
    triage_router E st =
      ([Classify (triage_prompt E e)],
       Raise (ValueError ("Invalid classification: " ++ classification r))) /\
    overall_workflow E st =
      ([Step "triage_router"; Classify (triage_prompt E e)],
       Raise (ValueError ("Invalid classification: " ++ classification r))).
Proof.
  intros E st e r He Hr H1 H2 H3.
  assert (Ht : triage_router E st =
      ([Classify (triage_prompt E e)],
       Raise (ValueError ("Invalid classification: " ++ classification r)))).
  { rewrite (triage_router_answered E st e r He Hr).
    apply String.eqb_neq in H1, H2, H3. rewrite H1, H2, H3. reflexivity. }
  split; [exact Ht|].
  rewrite overall_workflow_unfold, bind_emit, Ht. reflexivity.
Qed.

Lemma triage_router_rejects_unknown_category_witness :
  let E := sample_env (sample_router "maybe") model_never_done 25 in
  overall_workflow E sample_input =
    ([Step "triage_router"; Classify (triage_prompt E sample_email)],
     Raise (ValueError "Invalid classification: maybe")).
Proof.
  intros E.
  refine (proj2 (triage_router_rejects_unknown_category E sample_input
                   sample_email (mkRouterSchema "by rule" "maybe")
                   eq_refl eq_refl _ _ _)); discriminate.
Defined.

(** C3.  When the router model classifies the email as "ignore" or as
    "notify", [triage_router] routes to [END] with an update that holds
    the classification only, and the workflow ends there: the only node
    that ran is [triage_router], the only call that left the program is
    the router call, and the final state is the input with the
    classification recorded. *)
Theorem ignore_and_notify_end_the_run :
  forall (E : Env) (st : State) (e : email) (r : RouterSchema),
    email_input st = Some e ->
    llm_router E (triage_prompt E e) = Ok r ->
    classification r = "ignore" \/ classification r = "notify" ->
    triage_router E st =
      ([Classify (triage_prompt E e)],
       Ok {| goto := END_of_workflow;
             cmd_update :=
               {| upd_messages := None;
                  upd_email_input := None;
                  upd_classification_decision :=
                    Some (classification r) |} |}) /\
    overall_workflow E st =
      ([Step "triage_router"; Classify (triage_prompt E e)],
       Ok {| messages := messages st;
             email_input := email_input st;
             classification_decision := Some (classification r) |}) /\
    steps (trace_of (overall_workflow E st)) = ["triage_router"] /\
    act_calls (trace_of (overall_workflow E st)) = 0 /\
    invocations (trace_of (overall_workflow E st)) = [].
Proof.
  intros E st e r He Hr Hc.
  assert (Ht : triage_router E st =
      ([Classify (triage_prompt E e)],
       Ok {| goto := END_of_workflow;
             cmd_update :=
               {| upd_messages := None;
                  upd_email_input := None;
                  upd_classification_decision :=
                    Some (classification r) |} |})).
  { rewrite (triage_router_answered E st e r He Hr).
    destruct Hc as [-> | ->]; reflexivity. }
  assert (Ho : overall_workflow E st =
      ([Step "triage_router"; Classify (triage_prompt E e)],
       Ok {| messages := messages st;
             email_input := email_input st;
             classification_decision := Some (classification r) |})).
  { rewrite overall_workflow_unfold, bind_emit, Ht. reflexivity. }
  split; [exact Ht|]. split; [exact Ho|].
  rewrite Ho. repeat split.
Qed.

Lemma ignore_and_notify_end_the_run_witness :
  let E := sample_env (sample_router "notify") model_never_done 25 in
  overall_workflow E sample_input =
    ([Step "triage_router"; Classify (triage_prompt E sample_email)],
     Ok {| messages := [];
           email_input := Some sample_email;
           classification_decision := Some "notify" |}).
Proof.
  intros E.
  exact (proj1 (proj2 (ignore_and_notify_end_the_run E sample_input
                   sample_email (mkRouterSchema "by rule" "notify")
                   eq_refl eq_refl (or_intror eq_refl)))).
Defined.

(** C7, as the notebook has it.  One invocation of [triage_router] makes
    exactly one call to the router model, whatever the model answers.  The
    call is given a system turn, the triage template filled with the
    constants [default_background] and [default_triage_instructions], and
    a user turn, the user template filled with the author, recipient,
    subject and thread of the email.  No store is read. *)
Theorem triage_router_one_call_from_defaults :
  forall (E : Env) (st : State) (e : email),
    email_input st = Some e ->
    trace_of (triage_router E st) =
      [Classify
         [SystemMessage
            (triage_system_prompt (default_background E)
                                  (default_triage_instructions E));
          HumanMessage
            (triage_user_prompt E (author e) (to e) (subject e)
                                (email_thread e))]] /\
    classify_calls (trace_of (triage_router E st)) = 1.
Proof.
  intros E st e He. rewrite (triage_router_trace E st e He).
  destruct e as [a t s th]. split; reflexivity.
Qed.

Lemma triage_router_one_call_from_defaults_witness :
  let E := sample_env (sample_router "ignore") model_never_done 25 in
  classify_calls (trace_of (triage_router E sample_input)) = 1.
Proof.
  intros E.
  exact (proj2 (triage_router_one_call_from_defaults E sample_input
                  sample_email eq_refl)).
Defined.

(** C7, as the specification words it, fails: with a store whose triage
    rules differ from the default constant, the context the specification
    describes is not the one [triage_router] sends. *)
Lemma triage_router_does_not_read_the_store :
  let E := sample_env (sample_router "respond") model_write_and_done 25 in
  trace_of (triage_router E sample_input)
  <> [Classify (triage_prompt_of_store E sample_store sample_email)].
Proof.
  intros E H. vm_compute in H. discriminate H.
Qed.

(** ** The tool handler *)

Lemma run_tool_calls_cons (E : Env) tc rest acc :
  run_tool_calls E (tc :: rest) acc =
  bind (lift (get_tool (tc_name tc))) (fun t =>
  bind (call_invoke E t (tc_args tc)) (fun observation =>
    run_tool_calls E rest (acc ++ [ToolMessage observation (tc_id tc)]))).
Proof. reflexivity. Qed.

(** A successful pass over the calls: one invocation and one tool message
    per call, position by position. *)
Lemma run_tool_calls_Ok (E : Env) :
  forall tcs acc tr results,
    run_tool_calls E tcs acc = (tr, Ok results) ->
    exists new,
      results = acc ++ new /\
      Forall2 (fun tc m => exists t o,
                 get_tool (tc_name tc) = Ok t /\
                 invoke E t (tc_args tc) = Ok o /\
                 m = ToolMessage o (tc_id tc)) tcs new /\
      Forall2 (fun tc ev => exists t,
                 get_tool (tc_name tc) = Ok t /\
                 ev = Invoke t (tc_args tc)) tcs tr.
Proof.
  induction tcs as [|tc rest IH]; intros acc tr results H.
  - simpl in H. inversion H; subst. exists []. rewrite app_nil_r.
    repeat split; constructor.
  - rewrite run_tool_calls_cons in H.
    destruct (get_tool (tc_name tc)) as [t|x] eqn:Hg;
      [|unfold lift in H; rewrite bind_Raise in H; discriminate].
    rewrite bind_lift_Ok in H. unfold call_invoke in H.
    destruct (invoke E t (tc_args tc)) as [o|x] eqn:Hi;
      [|rewrite bind_Raise in H; discriminate].
    rewrite bind_Ok in H.
    destruct (run_tool_calls E rest (acc ++ [ToolMessage o (tc_id tc)]))
      as [tr' r'] eqn:Hrec.
    simpl in H. inversion H; subst.
    destruct (IH _ _ _ Hrec) as (new & Hnew & Hm & Ht).
    exists (ToolMessage o (tc_id tc) :: new). split; [|split].
    + rewrite Hnew, <- app_assoc. reflexivity.
    + constructor; [|exact Hm]. exists t, o. auto.
    + constructor; [|exact Ht]. exists t. auto.
Qed.

(** Whatever the outcome, the invocations made are those of the first
    calls of the list, in the order of the list. *)
Lemma run_tool_calls_trace (E : Env) :
  forall tcs acc,
    exists k,
      Forall2 (fun tc ev => exists t,
                 get_tool (tc_name tc) = Ok t /\
                 ev = Invoke t (tc_args tc))
              (take k tcs) (trace_of (run_tool_calls E tcs acc)).
Proof.
  induction tcs as [|tc rest IH]; intros acc.
  - exists 0. simpl. constructor.
  - rewrite run_tool_calls_cons.
    destruct (get_tool (tc_name tc)) as [t|x] eqn:Hg.
    + rewrite bind_lift_Ok. unfold call_invoke.
      destruct (invoke E t (tc_args tc)) as [o|x] eqn:Hi.
      * rewrite bind_Ok.
        destruct (IH (acc ++ [ToolMessage o (tc_id tc)])) as [k Hk].
        exists (S k). simpl. constructor; [|exact Hk]. exists t. auto.
      * rewrite bind_Raise. exists 1. simpl. rewrite take_0.
        constructor; [|constructor]. exists t. auto.
    + exists 0. unfold lift. rewrite bind_Raise. simpl. constructor.
Qed.

Lemma tool_messages_result_ids (E : Env) tcs new :
  Forall2 (fun tc m => exists t o,
             get_tool (tc_name tc) = Ok t /\
             invoke E t (tc_args tc) = Ok o /\
             m = ToolMessage o (tc_id tc)) tcs new ->
  result_ids new = map tc_id tcs /\ call_ids new = [].
Proof.
  induction 1 as [|tc m tcs new (t & o & _ & _ & ->) _ [IH1 IH2]].
  - split; reflexivity.
  - simpl. rewrite IH1. split; [reflexivity | exact IH2].
Qed.

Lemma tool_handler_snoc_AI (E : Env) (st : State) pre content tcs :
  messages st = pre ++ [AIMessage content tcs] ->
  tool_handler E st =
  bind (run_tool_calls E tcs []) (fun result =>
    ret {| upd_messages := Some result;
           upd_email_input := None;
           upd_classification_decision := None |}).
Proof.
  intros Hm. unfold tool_handler. rewrite Hm, last_message_snoc.
  rewrite bind_lift_Ok. simpl tool_calls_of. rewrite bind_lift_Ok.
  reflexivity.
Qed.

(** C5.  [tool_handler] walks the tool calls of the last assistant turn
    in the order the model returned them.  Whatever the outcome, the
    invocations it makes are those of a prefix of the calls, in that
    order; when it succeeds it has invoked every call, and the tool
    messages it appends to the conversation answer the calls position by
    position, each with the observation and the id of its call. *)
Theorem tool_handler_keeps_request_order :
  forall (E : Env) (st : State) (pre : list message) (content : string)
         (tcs : list tool_call),
    messages st = pre ++ [AIMessage content tcs] ->
    (exists k,
        Forall2 (fun tc ev => exists t,
                   get_tool (tc_name tc) = Ok t /\
                   ev = Invoke t (tc_args tc))
                (take k tcs) (trace_of (tool_handler E st))) /\
    (forall u, outcome_of (tool_handler E st) = Ok u ->
       exists results,
         upd_messages u = Some results /\
         messages (apply_update st u) = messages st ++ results /\
         Forall2 (fun tc ev => exists t,
                    get_tool (tc_name tc) = Ok t /\
                    ev = Invoke t (tc_args tc))
                 tcs (trace_of (tool_handler E st)) /\
         Forall2 (fun tc m => exists t o,
                    get_tool (tc_name tc) = Ok t /\
                    invoke E t (tc_args tc) = Ok o /\
                    m = ToolMessage o (tc_id tc)) tcs results /\
         result_ids results = map tc_id tcs).
Proof.
  intros E st pre content tcs Hm.
  rewrite (tool_handler_snoc_AI E st pre content tcs Hm).
  destruct (run_tool_calls E tcs []) as [tr [results|x]] eqn:Hr.
  - rewrite bind_Ok. simpl. rewrite app_nil_r.
    destruct (run_tool_calls_Ok E _ _ _ _ Hr) as (new & Hnew & Hms & Hevs).
    simpl in Hnew. subst new. split.
    + exists (length tcs). rewrite firstn_all. exact Hevs.
    + intros u Hu. inversion Hu; subst. exists results. simpl.
      unfold add_messages.
      repeat split; try assumption.
      apply (tool_messages_result_ids E tcs results Hms).
  - rewrite bind_Raise. simpl. split; [|discriminate].
    destruct (run_tool_calls_trace E tcs []) as [k Hk].
    rewrite Hr in Hk. exists k. exact Hk.
Qed.

Lemma tool_handler_keeps_request_order_witness :
  let E := sample_env (sample_router "respond") model_write_and_done 25 in
  let st := mkState [HumanMessage "Respond to the email";
                     AIMessage "" [call_check; call_write]]
                    (Some sample_email) (Some "respond") in
  exists results,
    messages (apply_update st (mkUpdate (Some results) None None))
    = messages st ++ results /\
    result_ids results = ["call_3"; "call_1"].
Proof.
  intros E st.
  destruct (proj2 (tool_handler_keeps_request_order E st
                     [HumanMessage "Respond to the email"] ""
                     [call_check; call_write] eq_refl)
              (mkUpdate (Some [ToolMessage "ran check_calendar_availability"
                                 "call_3";
                               ToolMessage "ran write_email" "call_1"])
                        None None) eq_refl)
    as (results & Hu & Happ & _ & _ & Hids).
  exists results. split; [|exact Hids].
  simpl in Hu. inversion Hu; subst. exact Happ.
Defined.

(** ** One step of the agent graph *)

Lemma follow_should_continue_snoc_AI pre content tcs e d :
  follow_should_continue (mkState (pre ++ [AIMessage content tcs]) e d)
  = match tcs with
    | [] => Raise (KeyError "None")
    | tc :: _ =>
        if String.eqb (tc_name tc) "Done" then Ok None
        else Ok (Some node_tool_handler)
    end.
Proof.
  unfold follow_should_continue. rewrite should_continue_snoc_AI.
  destruct tcs as [|tc rest]; [reflexivity|].
  unfold should_continue_body.
  destruct (String.eqb (tc_name tc) "Done"); reflexivity.
Qed.

Lemma agent_step_llm_call (E : Env) (st : State) :
  agent_step E node_llm_call st =
  ([Step "llm_call"; Act ([agent_system_message E] ++ messages st)],
   match llm_with_tools E ([agent_system_message E] ++ messages st) with
   | Raise x => Raise x
   | Ok (content, tcs) =>
       match tcs with
       | [] => Raise (KeyError "None")
       | tc :: _ =>
           Ok (if String.eqb (tc_name tc) "Done" then None
               else Some node_tool_handler,
               mkState (messages st ++ [AIMessage content tcs])
                       (email_input st) (classification_decision st))
       end
   end).
Proof.
  unfold agent_step. rewrite bind_emit. cbn [node_name].
  unfold llm_call, call_llm_with_tools.
  destruct (llm_with_tools E _) as [[content tcs]|x]; [|reflexivity].
  rewrite bind_Ok. cbn [fst snd ret]. rewrite bind_Ok.
  unfold apply_update, add_messages. cbn [upd_messages upd_email_input
    upd_classification_decision fst snd].
  rewrite follow_should_continue_snoc_AI.
  destruct tcs as [|tc rest]; [reflexivity|].
  destruct (String.eqb (tc_name tc) "Done"); reflexivity.
Qed.

Lemma agent_step_tool_handler (E : Env) (st : State) :
  agent_step E node_tool_handler st =
  (Step "tool_handler" :: trace_of (tool_handler E st),
   match outcome_of (tool_handler E st) with
   | Raise x => Raise x
   | Ok u => Ok (Some node_llm_call, apply_update st u)
   end).
Proof.
  unfold agent_step. rewrite bind_emit. cbn [node_name].
  destruct (tool_handler E st) as [tr [u|x]]; [|reflexivity].
  rewrite bind_Ok. simpl. rewrite app_nil_r. reflexivity.
Qed.

Lemma run_tool_calls_no_act (E : Env) tcs acc :
  act_calls (trace_of (run_tool_calls E tcs acc)) = 0.
Proof.
  destruct (run_tool_calls_trace E tcs acc) as [k Hk].
  induction Hk as [|tc ev l tr (t & _ & ->) _ IH]; [reflexivity|].
  exact IH.
Qed.

Lemma tool_handler_no_act (E : Env) (st : State) :
  act_calls (trace_of (tool_handler E st)) = 0.
Proof.
  unfold tool_handler.
  destruct (last_message (messages st)) as [m|x]; [|reflexivity].
  rewrite bind_lift_Ok.
  destruct (tool_calls_of m) as [tcs|x]; [|reflexivity].
  rewrite bind_lift_Ok.
  pose proof (run_tool_calls_no_act E tcs []) as H.
  destruct (run_tool_calls E tcs []) as [tr [results|x]]; [|exact H].
  rewrite bind_Ok. simpl. rewrite app_nil_r. exact H.
Qed.

Lemma agent_step_act_calls (E : Env) (n : node) (st : State) :
  act_calls (trace_of (agent_step E n st)) <= 1.
Proof.
  destruct n.
  - rewrite agent_step_llm_call. simpl. auto.
  - rewrite agent_step_tool_handler. unfold trace_of at 1. cbn [fst].
    change (Step "tool_handler" :: trace_of (tool_handler E st))
      with ([Step "tool_handler"] ++ trace_of (tool_handler E st)).
    rewrite act_calls_app, tool_handler_no_act. simpl. auto.
Qed.

Lemma agent_step_steps (E : Env) (n : node) (st : State) :
  steps (trace_of (agent_step E n st)) = [node_name n].
Proof.
  destruct n.
  - rewrite agent_step_llm_call. reflexivity.
  - rewrite agent_step_tool_handler. unfold trace_of at 1. cbn [fst].
    simpl. f_equal.
    unfold tool_handler.
    destruct (last_message (messages st)) as [m|x]; [|reflexivity].
    rewrite bind_lift_Ok.
    destruct (tool_calls_of m) as [tcs|x]; [|reflexivity].
    rewrite bind_lift_Ok.
    assert (H : steps (trace_of (run_tool_calls E tcs [])) = []).
    { destruct (run_tool_calls_trace E tcs []) as [k Hk].
      induction Hk as [|tc ev l tr (t & _ & ->) _ IH]; [reflexivity|].
      exact IH. }
    destruct (run_tool_calls E tcs []) as [tr [results|x]]; [|exact H].
    rewrite bind_Ok. simpl. rewrite app_nil_r. exact H.
Qed.

(** ** The agent loop *)

Lemma agent_loop_S (E : Env) (fuel : nat) (n : node) (st : State) :
  agent_loop E (S fuel) n st =
  bind (agent_step E n st) (fun r =>
    match fst r with
    | None =>
        match fuel with
        | O => raise GraphRecursionError
        | S _ => ret (snd r)
        end
    | Some n' => agent_loop E fuel n' (snd r)
    end).
Proof. reflexivity. Qed.

Lemma steps_app (tr1 tr2 : list event) :
  steps (tr1 ++ tr2) = steps tr1 ++ steps tr2.
Proof. unfold steps. apply flat_map_app. Qed.

(** One more round of a run that succeeds. *)
Lemma agent_loop_Ok (E : Env) (fuel : nat) (n : node) (st : State)
    tr final :
  agent_loop E fuel n st = (tr, Ok final) ->
  exists fuel' tr1 nx st' tr2,
    fuel = S fuel' /\
    agent_step E n st = (tr1, Ok (nx, st')) /\
    tr = tr1 ++ tr2 /\
    match nx with
    | None => tr2 = [] /\ final = st'
    | Some n' => agent_loop E fuel' n' st' = (tr2, Ok final)
    end.
Proof.
  destruct fuel as [|fuel']; [discriminate|].
  rewrite agent_loop_S. intros Hrun. apply bind_inv_Ok in Hrun.
  destruct Hrun as (tr1 & [nx st'] & tr2 & Hstep & Hrest & Htr).
  exists fuel', tr1, nx, st', tr2. cbn [fst snd] in Hrest.
  repeat split; try assumption.
  destruct nx as [n'|]; [exact Hrest|].
  destruct fuel'; [discriminate Hrest|].
  inversion Hrest; subst. auto.
Qed.

(** With a model that never signals completion the run stops at the
    limit: four steps, two model calls, and the recursion error. *)
Example agent_never_done_hits_the_limit :
  let E := sample_env (sample_router "respond") model_never_done 4 in
  let run := agent E (mkState [HumanMessage "Respond to the email"]
                              (Some sample_email) (Some "respond")) in
  outcome_of run = Raise GraphRecursionError /\
  act_calls (trace_of run) = 2 /\
  steps (trace_of run)
  = ["llm_call"; "tool_handler"; "llm_call"; "tool_handler"].
Proof. vm_compute. repeat split. Qed.

(** What ends that run is the budget and nothing in the graph: with
    that model the run is cut off under every budget. *)
Lemma agent_never_done_is_cut_off
    (router : list message -> result RouterSchema) (limit : nat) :
  forall fuel,
    (forall st,
        outcome_of (agent_loop (sample_env router model_never_done limit)
                               fuel node_llm_call st)
        = Raise GraphRecursionError) /\
    (forall st pre content a i,
        messages st
        = pre ++ [AIMessage content
                    [ToolCall "check_calendar_availability" a i]] ->
        outcome_of (agent_loop (sample_env router model_never_done limit)
                               fuel node_tool_handler st)
        = Raise GraphRecursionError).
Proof.
  induction fuel as [|fuel [IHllm IHtool]]; [split; reflexivity|].
  split.
  - intros st. rewrite agent_loop_S, agent_step_llm_call.
    cbn [llm_with_tools sample_env]. unfold model_never_done.
    cbn [tc_name]. change (String.eqb "check_calendar_availability" "Done")
      with false. rewrite bind_Ok. unfold outcome_of in *. cbn [fst snd].
    eapply IHtool. cbn [messages]. reflexivity.
  - intros st pre content a i Hms.
    assert (Hth : tool_handler (sample_env router model_never_done limit) st
                  = ([Invoke check_calendar_availability a],
                     Ok (mkUpdate
                           (Some [ToolMessage
                                    "ran check_calendar_availability" i])
                           None None))).
    { rewrite (tool_handler_snoc_AI _ st pre content _ Hms). reflexivity. }
    rewrite agent_loop_S, agent_step_tool_handler, Hth.
    unfold outcome_of in *. cbn [fst snd]. rewrite bind_Ok. cbn [fst snd].
    apply IHllm.
Qed.

(** ** The completion signal *)


(** C1 fails when "Done" is not the first call of the batch.  The model
    answers with [write_email] and then "Done" in one assistant turn:
    [should_continue] looks at [write_email] and routes to the tool
    handler, which invokes both tools and appends a tool message for the
    "Done" call; the loop goes on to another model call. *)
Theorem done_behind_another_call_is_executed :
  let E := sample_env (sample_router "respond") model_write_and_done 25 in
  let st := mkState [HumanMessage "Respond to the email";
                     AIMessage "" [call_write; call_done]]
                    (Some sample_email) (Some "respond") in
  should_continue st = Ok (Some route_tool_handler) /\
  invocations (trace_of (tool_handler E st))
  = [(write_email, tc_args call_write); (Done, tc_args call_done)] /\
  outcome_of (tool_handler E st)
  = Ok (mkUpdate (Some [ToolMessage "ran write_email" "call_1";
                        ToolMessage "ran Done" "call_2"]) None None) /\
  invocations (trace_of (overall_workflow E sample_input))
  = [(write_email, tc_args call_write); (Done, tc_args call_done)] /\
  steps (trace_of (overall_workflow E sample_input))
  = ["triage_router"; "response_agent"; "llm_call"; "tool_handler";
     "llm_call"] /\
  (exists final,
      outcome_of (overall_workflow E sample_input) = Ok final /\
      In (ToolMessage "ran Done" "call_2") (messages final)).
Proof.
  intros E st. repeat split.
  eexists. split; [vm_compute; reflexivity|].
  simpl. auto 10.
Qed.

(** ** Tool-call ids and tool results *)

Lemma call_ids_AI content tcs : call_ids [AIMessage content tcs] = map tc_id tcs.
Proof. simpl. apply app_nil_r. Qed.

Lemma result_ids_AI content tcs : result_ids [AIMessage content tcs] = [].
Proof. reflexivity. Qed.

Lemma call_ids_prompt (E : Env) (ms : list message) :
  call_ids ([agent_system_message E] ++ ms) = call_ids ms.
Proof. reflexivity. Qed.

Lemma filter_eq_absent (id : string) (l : list string) :
  id ∉ l -> filter (fun i => i = id) l = [].
Proof.
  induction l as [|x l IH]; intros Hn; [reflexivity|].
  rewrite filter_cons. apply not_elem_of_cons in Hn. destruct Hn as [Hx Hl].
  destruct (decide (x = id)) as [->|_]; [contradiction|]. auto.
Qed.

(** In a list without duplicates an id occurs at most once. *)
Lemma NoDup_results_for (id : string) (ms : list message) :
  NoDup (result_ids ms) -> results_for id ms <= 1.
Proof.
  unfold results_for. generalize (result_ids ms) as l.
  induction l as [|x l IH]; intros Hnd; [simpl; lia|].
  apply NoDup_cons in Hnd. destruct Hnd as [Hx Hl].
  rewrite filter_cons. destruct (decide (x = id)) as [->|_].
  - rewrite (filter_eq_absent id l Hx). simpl. lia.
  - auto.
Qed.

Lemma conversation_ok_answered_once (ms : list message) :
  conversation_ok ms ->
  forall id, id ∈ call_ids ms -> results_for id ms <= 1.
Proof.
  intros (_ & Hr & _) id _. apply NoDup_results_for. exact Hr.
Qed.

(** After the model's answer, the conversation is ready for the tool
    handler. *)
Lemma node_ready_after_llm_call (E : Env) (ms : list message) content tcs :
  fresh_ids E ->
  conversation_ok ms ->
  llm_with_tools E ([agent_system_message E] ++ ms) = Ok (content, tcs) ->
  node_ready node_tool_handler (ms ++ [AIMessage content tcs]) /\
  conversation_ok (ms ++ [AIMessage content tcs]).
Proof.
  intros Hfresh (Hc & Hr & Hin) Hm.
  destruct (Hfresh _ _ _ Hm) as [Hnd Hnew].
  rewrite call_ids_prompt in Hnew.
  assert (Hcalls : NoDup (call_ids (ms ++ [AIMessage content tcs]))).
  { rewrite call_ids_app, call_ids_AI. apply NoDup_app.
    split; [exact Hc|]. split; [|exact Hnd].
    intros id Hid Hid'. exact (Hnew id Hid' Hid). }
  split.
  - exists ms, content, tcs. auto.
  - split; [exact Hcalls|].
    rewrite result_ids_app, result_ids_AI, app_nil_r.
    split; [exact Hr|].
    intros id Hid. rewrite call_ids_app. apply elem_of_app. left. auto.
Qed.

(** After the tool handler, every call of the conversation that has a
    result has one result. *)
Lemma conversation_ok_after_tool_handler (E : Env) pre content tcs results :
  NoDup (call_ids (pre ++ [AIMessage content tcs])) ->
  NoDup (result_ids pre) ->
  (forall id, id ∈ result_ids pre -> id ∈ call_ids pre) ->
  result_ids results = map tc_id tcs ->
  call_ids results = [] ->
  conversation_ok ((pre ++ [AIMessage content tcs]) ++ results).
Proof.
  intros Hc Hr Hin Hres Hnocalls.
  pose proof Hc as Hc'.
  rewrite call_ids_app, call_ids_AI in Hc'. apply NoDup_app in Hc'.
  destruct Hc' as (Hpre & Hdisj & Htcs).
  split; [|split].
  - rewrite call_ids_app, Hnocalls, app_nil_r. exact Hc.
  - rewrite !result_ids_app, result_ids_AI, app_nil_r, Hres.
    apply NoDup_app. split; [exact Hr|]. split; [|exact Htcs].
    intros id Hid. apply Hdisj, Hin, Hid.
  - intros id. rewrite !result_ids_app, result_ids_AI, app_nil_r, Hres.
    rewrite !call_ids_app, call_ids_AI, Hnocalls, app_nil_r.
    rewrite !elem_of_app. intros [Hid | Hid]; [left; auto | right; exact Hid].
Qed.

(** One step of the agent graph keeps the conversation in order. *)
Lemma agent_step_keeps_order :
  forall (E : Env) (n : node) (st : State) (tr : list event)
         (nx : next) (st' : State),
    fresh_ids E ->
    node_ready n (messages st) ->
    agent_step E n st = (tr, Ok (nx, st')) ->
    match nx with
    | Some n' => node_ready n' (messages st')
    | None => conversation_ok (messages st')
    end /\
    conversation_ok (messages st').
Proof.
  intros E n st tr nx st' Hfresh Hready Hstep. destruct n.
  - (* llm_call *)
    rewrite agent_step_llm_call in Hstep.
    destruct (llm_with_tools E _) as [[content tcs]|x] eqn:Hm;
      [|inversion Hstep].
    destruct tcs as [|tc rest]; [inversion Hstep|].
    inversion Hstep; subst; clear Hstep. cbn [messages].
    destruct (node_ready_after_llm_call E _ _ _ Hfresh Hready Hm)
      as [Hth Hok].
    split; [|exact Hok].
    destruct (String.eqb (tc_name tc) "Done"); assumption.
  - (* tool_handler *)
    rewrite agent_step_tool_handler in Hstep.
    destruct (tool_handler E st) as [tr' [u|x]] eqn:Hth;
      [|inversion Hstep].
    unfold outcome_of, trace_of in Hstep. cbn [fst snd] in Hstep.
    inversion Hstep; subst; clear Hstep.
    apply tool_handler_inv in Hth.
    destruct Hth as (pre & content & tcs & results & Hms & Hrun & ->).
    destruct (run_tool_calls_Ok E _ _ _ _ Hrun) as (new & Hnew & Hfa & _).
    simpl in Hnew. subst new.
    destruct (tool_messages_result_ids E tcs results Hfa) as [Hres Hnc].
    destruct Hready as (pre' & content' & tcs' & Hms' & Hc & Hr & Hin).
    rewrite Hms in Hms'. apply app_inj_tail in Hms'.
    destruct Hms' as [<- Heq]. inversion Heq; subst content' tcs'.
    unfold apply_update, add_messages.
    cbn [messages upd_messages]. rewrite Hms in *.
    assert (Hok : conversation_ok ((pre ++ [AIMessage content tcs])
                                   ++ results)).
    { apply (conversation_ok_after_tool_handler E); assumption. }
    split; exact Hok.
Qed.

(** C6, as the code keeps it.  Let the model give every call an id that
    is new to the conversation, and let the conversation be in order
    when a node starts
    (distinct call ids, at most one result per id, every result answering
    a call; before [tool_handler], the assistant's last turn still
    unanswered).  Then after the node the conversation is in order for
    the node that follows, every call id has at most one tool result, and
    the tool messages [tool_handler] appended carry, position by
    position, the ids of the calls of the assistant turn it answered. *)
Theorem tool_results_answer_each_call_once :
  forall (E : Env) (n : node) (st : State) (tr : list event)
         (nx : next) (st' : State),
    fresh_ids E ->
    node_ready n (messages st) ->
    agent_step E n st = (tr, Ok (nx, st')) ->
    match nx with
    | Some n' => node_ready n' (messages st')
    | None => conversation_ok (messages st')
    end /\
    (forall id, id ∈ call_ids (messages st') ->
                results_for id (messages st') <= 1) /\
    (n = node_tool_handler ->
     exists pre content tcs results,
       messages st = pre ++ [AIMessage content tcs] /\
       messages st' = messages st ++ results /\
       Forall2 (fun tc m => exists o, m = ToolMessage o (tc_id tc))
               tcs results).
Proof.
  intros E n st tr nx st' Hfresh Hready Hstep.
  destruct (agent_step_keeps_order E n st tr nx st' Hfresh Hready Hstep)
    as [Hnext Hok].
  split; [exact Hnext|]. split.
  - apply conversation_ok_answered_once. exact Hok.
  - intros ->. rewrite agent_step_tool_handler in Hstep.
    destruct (tool_handler E st) as [tr' [u|x]] eqn:Hth;
      [|inversion Hstep].
    unfold outcome_of, trace_of in Hstep. cbn [fst snd] in Hstep.
    inversion Hstep; subst; clear Hstep.
    apply tool_handler_inv in Hth.
    destruct Hth as (pre & content & tcs & results & Hms & Hrun & ->).
    destruct (run_tool_calls_Ok E _ _ _ _ Hrun) as (new & Hnew & Hfa & _).
    simpl in Hnew. subst new.
    exists pre, content, tcs, results.
    split; [exact Hms|]. split; [reflexivity|].
    eapply Forall2_impl; [exact Hfa|].
    intros tc m (t & o & _ & _ & ->). exists o. reflexivity.
Qed.

(** The same along a whole run: a run that ends leaves a conversation in
    which every call id has at most one result. *)
Lemma agent_loop_keeps_order (E : Env) :
  fresh_ids E ->
  forall fuel n st tr final,
    node_ready n (messages st) ->
    agent_loop E fuel n st = (tr, Ok final) ->
    conversation_ok (messages final).
Proof.
  intros Hfresh. induction fuel as [|fuel IH]; intros n st tr final Hready Hrun.
  - discriminate.
  - apply agent_loop_Ok in Hrun.
    destruct Hrun as (fuel' & tr1 & nx & st' & tr2 & Hf & Hstep & _ & Hrest).
    inversion Hf; subst fuel'; clear Hf.
    destruct (agent_step_keeps_order E n st tr1 nx st' Hfresh Hready Hstep)
      as [Hnext _].
    destruct nx as [n'|].
    + exact (IH n' st' tr2 final Hnext Hrest).
    + destruct Hrest as [_ ->]. exact Hnext.
Qed.

(** The response agent leaves [email_input] and
    [classification_decision] as the triage stage recorded them. *)
Lemma agent_loop_frame (E : Env) :
  forall fuel n st tr final,
    agent_loop E fuel n st = (tr, Ok final) ->
    email_input final = email_input st /\
    classification_decision final = classification_decision st.
Proof.
  induction fuel as [|fuel IH]; intros n st tr final Hrun; [discriminate|].
  apply agent_loop_Ok in Hrun.
  destruct Hrun as (fuel' & tr1 & nx & st' & tr2 & Hf & Hstep & _ & Hrest).
  inversion Hf; subst fuel'; clear Hf.
  assert (Hst : email_input st' = email_input st /\
                classification_decision st' = classification_decision st).
  { destruct n.
    - rewrite agent_step_llm_call in Hstep.
      destruct (llm_with_tools E _) as [[content tcs]|x]; [|inversion Hstep].
      destruct tcs; inversion Hstep; subst. auto.
    - rewrite agent_step_tool_handler in Hstep.
      destruct (tool_handler E st) as [tr' [u|x]] eqn:Hth;
        [|inversion Hstep].
      unfold outcome_of in Hstep. cbn [snd] in Hstep.
      inversion Hstep; subst.
      apply tool_handler_inv in Hth.
      destruct Hth as (pre & content & tcs & results & _ & _ & ->). auto. }
  destruct nx as [n'|].
  - destruct (IH n' st' tr2 final Hrest) as [He Hc].
    destruct Hst as [He' Hc']. rewrite He, Hc. auto.
  - destruct Hrest as [_ ->]. exact Hst.
Qed.

Lemma string_length_append (s1 s2 : string) :
  String.length (s1 ++ s2) = String.length s1 + String.length s2.
Proof.
  induction s1 as [|c s1 IH]; simpl; [reflexivity|].
  rewrite IH. reflexivity.
Qed.

Lemma fold_append_nonempty (l : list string) :
  0 < String.length (fold_right String.append "i" l).
Proof.
  induction l as [|y l IH]; simpl; [lia|].
  rewrite string_length_append. lia.
Qed.

Lemma longer_than_every_id (l : list string) (x : string) :
  x ∈ l -> String.length x < String.length (fold_right String.append "i" l).
Proof.
  induction l as [|y l IH]; intros Hx.
  - apply elem_of_nil in Hx. contradiction.
  - simpl. rewrite string_length_append. apply elem_of_cons in Hx.
    pose proof (fold_append_nonempty l) as Hpos.
    destruct Hx as [-> | Hx]; [lia | specialize (IH Hx); lia].
Qed.

Lemma model_counting_fresh (router : list message -> result RouterSchema)
    (limit : nat) :
  fresh_ids (sample_env router model_counting limit).
Proof.
  intros prompt content tcs H. cbn in H. unfold model_counting in H.
  inversion H; subst; clear H. cbn [map tc_id]. split.
  - apply NoDup_singleton.
  - intros id Hid Hin. apply list_elem_of_singleton in Hid. subst id.
    apply longer_than_every_id in Hin. lia.
Qed.

Lemma tool_results_answer_each_call_once_witness :
  let E := sample_env (sample_router "respond") model_counting 25 in
  let st := mkState [HumanMessage "Respond to the email";
                     AIMessage "" [call_check; call_write]]
                    (Some sample_email) (Some "respond") in
  let st' := mkState (messages st
                      ++ [ToolMessage "ran check_calendar_availability"
                            "call_3";
                          ToolMessage "ran write_email" "call_1"])
                     (Some sample_email) (Some "respond") in
  conversation_ok (messages st') /\
  results_for "call_3" (messages st') <= 1.
Proof.
  intros E st st'.
  assert (Hready : node_ready node_tool_handler (messages st)).
  { exists [HumanMessage "Respond to the email"], "", [call_check; call_write].
    split; [reflexivity|]. split; [|split].
    - apply NoDup_ListNoDup. repeat constructor; simpl; intuition discriminate.
    - apply NoDup_nil. exact I.
    - intros id Hid. exact Hid. }
  destruct (tool_results_answer_each_call_once E node_tool_handler st
              [Step "tool_handler";
               Invoke check_calendar_availability (tc_args call_check);
               Invoke write_email (tc_args call_write)]
              (Some node_llm_call) st'
              (model_counting_fresh _ _) Hready eq_refl)
    as (Hok & Hone & _).
  split; [exact Hok|].
  apply Hone. apply list_elem_of_In. simpl. auto.
Defined.

(** * Further properties of the notebooks *)

(** ** The tool registry *)

Lemma get_tool_of_tool_name (t : tool) : get_tool (tool_name t) = Ok t.
Proof. destruct t; reflexivity. Qed.

Lemma tools_by_name_lookup (name : string) (t : tool) :
  tools_by_name !! name = Some t -> tool_name t = name.
Proof.
  unfold tools_by_name, tools. cbn [foldl tool_name].
  rewrite !lookup_insert, lookup_empty.
  repeat case_decide; intros Heq; inversion Heq; subst; reflexivity.
Qed.

Lemma get_tool_Ok (name : string) (t : tool) :
  get_tool name = Ok t -> tool_name t = name.
Proof.
  unfold get_tool. destruct (tools_by_name !! name) as [t'|] eqn:Hl;
    [|discriminate].
  intros H. inversion H; subst. apply tools_by_name_lookup. exact Hl.
Qed.

(** [tools_by_name] is the inverse of [tool.name]: a name is found
    exactly when it is the name of one of the four tools, the lookup
    gives that tool, and every other name is a [KeyError] on that name. *)
Theorem tools_by_name_inverts_tool_name :
  forall (name : string),
    (forall t, get_tool name = Ok t <-> tool_name t = name) /\
    (get_tool name = Raise (KeyError name) \/
     exists t, get_tool name = Ok t).
Proof.
  intros name. split.
  - intros t. split; [apply get_tool_Ok|].
    intros <-. apply get_tool_of_tool_name.
  - unfold get_tool. destruct (tools_by_name !! name) as [t|].
    + right. exists t. reflexivity.
    + left. reflexivity.
Qed.

(** ** Failures of the triage stage *)

(** A state without the [email_input] key, such as one that holds
    messages only, fails in [triage_router] with a [KeyError] before the
    router model is called, and the workflow fails with it after that one
    step. *)
Theorem triage_router_needs_email_input :
  forall (E : Env) (st : State),
    email_input st = None ->
    triage_router E st = ([], Raise (KeyError "email_input")) /\
    overall_workflow E st
    = ([Step "triage_router"], Raise (KeyError "email_input")).
Proof.
  intros E st He.
  assert (Ht : triage_router E st = ([], Raise (KeyError "email_input"))).
  { unfold triage_router, get_email_input. rewrite He. reflexivity. }
  split; [exact Ht|].
  rewrite overall_workflow_unfold, bind_emit, Ht. reflexivity.
Qed.

Lemma triage_router_needs_email_input_witness :
  let E := sample_env (sample_router "respond") model_write_and_done 25 in
  overall_workflow E (mkState [HumanMessage "an email as text"] None None)
  = ([Step "triage_router"], Raise (KeyError "email_input")).
Proof.
  intros E.
  exact (proj2 (triage_router_needs_email_input E
                  (mkState [HumanMessage "an email as text"] None None)
                  eq_refl)).
Defined.

(** An exception of the router model goes through [triage_router] and
    the workflow unchanged: the router was called once, nothing else ran,
    and no category was recorded. *)
Theorem router_exception_fails_the_run :
  forall (E : Env) (st : State) (e : email) (x : exn),
    email_input st = Some e ->
    llm_router E (triage_prompt E e) = Raise x ->
    triage_router E st = ([Classify (triage_prompt E e)], Raise x) /\
    overall_workflow E st
    = ([Step "triage_router"; Classify (triage_prompt E e)], Raise x).
Proof.
  intros E st e x He Hr.
  assert (Ht : triage_router E st
               = ([Classify (triage_prompt E e)], Raise x)).
  { unfold triage_router, get_email_input. rewrite He, bind_lift_Ok.
    destruct e as [a t s th]. cbn [parse_email]. unfold call_llm_router.
    rewrite Hr. reflexivity. }
  split; [exact Ht|].
  rewrite overall_workflow_unfold, bind_emit, Ht. reflexivity.
Qed.

Lemma router_exception_fails_the_run_witness :
  let E := sample_env (fun _ => Raise (External "rate limit"))
                      model_write_and_done 25 in
  overall_workflow E sample_input
  = ([Step "triage_router"; Classify (triage_prompt E sample_email)],
     Raise (External "rate limit")).
Proof.
  intros E.
  exact (proj2 (router_exception_fails_the_run E sample_input sample_email
                  (External "rate limit") eq_refl eq_refl)).
Defined.

(** ** The respond branch *)

(** For the category "respond" [triage_router] routes to
    [response_agent] with an update that records the category and adds
    one user turn, "Respond to the email: " followed by the email as
    markdown.  The workflow is then the triage step followed by the agent
    graph run on the input conversation extended by that turn. *)
Theorem respond_seeds_the_agent :
  forall (E : Env) (st : State) (e : email) (r : RouterSchema),
    email_input st = Some e ->
    llm_router E (triage_prompt E e) = Ok r ->
    classification r = "respond" ->
    let seed :=
      HumanMessage ("Respond to the email: 

" ++ format_email_markdown E (subject e) (author e) (to e) (email_thread e)) in
    let seeded := mkState (messages st ++ [seed]) (email_input st)
                          (Some "respond") in
    triage_router E st =
      ([Classify (triage_prompt E e)],
       Ok {| goto := response_agent;
             cmd_update :=
               {| upd_messages := Some [seed];
                  upd_email_input := None;
                  upd_classification_decision := Some "respond" |} |}) /\
    overall_workflow E st =
      ([Step "triage_router"; Classify (triage_prompt E e);
        Step "response_agent"] ++ trace_of (agent E seeded),
       outcome_of (agent E seeded)).
Proof.
  intros E st e r He Hr Hc seed seeded.
  assert (Ht : triage_router E st =
      ([Classify (triage_prompt E e)],
       Ok {| goto := response_agent;
             cmd_update :=
               {| upd_messages := Some [seed];
                  upd_email_input := None;
                  upd_classification_decision := Some "respond" |} |})).
  { rewrite (triage_router_answered E st e r He Hr), Hc. reflexivity. }
  split; [exact Ht|].
  rewrite overall_workflow_unfold, bind_emit, Ht, bind_Ok.
  cbn [fst snd goto cmd_update]. rewrite bind_emit.
  unfold apply_update, add_messages. cbn [upd_messages upd_email_input
    upd_classification_decision fst snd]. fold seeded.
  unfold trace_of, outcome_of. reflexivity.
Qed.

Lemma respond_seeds_the_agent_witness :
  let E := sample_env (sample_router "respond") model_write_and_done 25 in
  exists seeded,
    messages seeded
    = [HumanMessage ("Respond to the email: 

" ++ format_email_markdown E (subject sample_email) (author sample_email)
       (to sample_email) (email_thread sample_email))] /\
    outcome_of (overall_workflow E sample_input) = outcome_of (agent E seeded).
Proof.
  intros E.
  pose proof (proj2 (respond_seeds_the_agent E sample_input sample_email
                       (mkRouterSchema "by rule" "respond")
                       eq_refl eq_refl eq_refl)) as H.
  eexists. split; [|rewrite H; reflexivity]. reflexivity.
Defined.

(** ** Conversations the loop nodes cannot read *)

(** [messages[-1].tool_calls] needs a last turn, and the turn must be the
    assistant's: on an empty conversation [tool_handler] and
    [should_continue] raise [IndexError], and on a conversation that ends
    with a system, user or tool turn they raise [AttributeError]; no tool
    is invoked in either case. *)
Theorem loop_nodes_need_an_assistant_turn :
  forall (E : Env) (st : State),
    (messages st = [] ->
     tool_handler E st = ([], Raise IndexError) /\
     should_continue st = Raise IndexError) /\
    (forall pre m,
        messages st = pre ++ [m] ->
        (forall content tcs, m <> AIMessage content tcs) ->
        tool_handler E st = ([], Raise (AttributeError "tool_calls")) /\
        should_continue st = Raise (AttributeError "tool_calls")).
Proof.
  intros E st. split.
  - intros Hm. unfold tool_handler, should_continue. rewrite Hm.
    split; reflexivity.
  - intros pre m Hm Hnot. unfold tool_handler, should_continue.
    rewrite Hm, last_message_snoc, bind_lift_Ok.
    destruct m as [c|c|c tcs|c i]; try (split; reflexivity).
    exfalso. exact (Hnot c tcs eq_refl).
Qed.

Lemma loop_nodes_need_an_assistant_turn_witness :
  let E := sample_env (sample_router "respond") model_write_and_done 25 in
  let st := mkState [HumanMessage "Respond to the email";
                     ToolMessage "ran write_email" "call_1"]
                    (Some sample_email) (Some "respond") in
  tool_handler E st = ([], Raise (AttributeError "tool_calls")) /\
  should_continue st = Raise (AttributeError "tool_calls").
Proof.
  intros E st.
  refine (proj2 (loop_nodes_need_an_assistant_turn E st)
            [HumanMessage "Respond to the email"]
            (ToolMessage "ran write_email" "call_1") eq_refl _).
  intros content tcs. discriminate.
Defined.

(** ** A batch that fails part-way *)

Lemma bind_prefix {A B} (tr : list event) (m : M A) (k : A -> M B) :
  bind (tr ++ fst m, snd m) k = (tr ++ fst (bind m k), snd (bind m k)).
Proof.
  destruct m as [tr' [a|e]]; simpl.
  - destruct (k a) as [tr'' r]. simpl. rewrite app_assoc. reflexivity.
  - reflexivity.
Qed.

(** Handling a batch is handling its first part and then the rest, with
    the tool messages built so far handed on. *)
Lemma run_tool_calls_app (E : Env) :
  forall before rest acc,
    run_tool_calls E (before ++ rest) acc =
    bind (run_tool_calls E before acc) (fun acc' =>
      run_tool_calls E rest acc').
Proof.
  induction before as [|tc before IH]; intros rest acc.
  - simpl app. cbn [run_tool_calls]. unfold ret. rewrite bind_Ok. simpl.
    destruct (run_tool_calls E rest acc); reflexivity.
  - rewrite <- app_comm_cons, !run_tool_calls_cons.
    destruct (get_tool (tc_name tc)) as [t|x]; [|reflexivity].
    rewrite !bind_lift_Ok. unfold call_invoke.
    destruct (invoke E t (tc_args tc)) as [o|x]; [|reflexivity].
    rewrite !bind_Ok, IH. symmetry. apply bind_prefix.
Qed.

(** Calls whose tools exist and return are all handled. *)
Lemma run_tool_calls_all_return (E : Env) :
  forall tcs acc,
    Forall (fun tc => exists t o,
              get_tool (tc_name tc) = Ok t /\
              invoke E t (tc_args tc) = Ok o) tcs ->
    exists tr results,
      run_tool_calls E tcs acc = (tr, Ok results) /\
      Forall2 (fun tc ev => exists t,
                 get_tool (tc_name tc) = Ok t /\
                 ev = Invoke t (tc_args tc)) tcs tr.
Proof.
  induction tcs as [|tc tcs IH]; intros acc Hall.
  - exists [], acc. split; [reflexivity | constructor].
  - apply Forall_cons in Hall. destruct Hall as [(t & o & Hg & Hi) Hall].
    destruct (IH (acc ++ [ToolMessage o (tc_id tc)]) Hall)
      as (tr & results & Hrun & Hevs).
    exists (Invoke t (tc_args tc) :: tr), results. split.
    + rewrite run_tool_calls_cons, Hg, bind_lift_Ok. unfold call_invoke.
      rewrite Hi, bind_Ok, Hrun. reflexivity.
    + constructor; [|exact Hevs]. exists t. auto.
Qed.

(** What [tool_handler] does with a batch whose calls [before] return and
    whose next call [bad] fails with [x] after the events [tr_bad]. *)
Lemma tool_handler_fails_at (E : Env) (st : State) pre content
    before bad after tr_bad x :
  messages st = pre ++ [AIMessage content (before ++ bad :: after)] ->
  Forall (fun tc => exists t o,
            get_tool (tc_name tc) = Ok t /\
            invoke E t (tc_args tc) = Ok o) before ->
  (forall acc, run_tool_calls E (bad :: after) acc = (tr_bad, Raise x)) ->
  exists tr,
    tool_handler E st = (tr ++ tr_bad, Raise x) /\
    Forall2 (fun tc ev => exists t,
               get_tool (tc_name tc) = Ok t /\
               ev = Invoke t (tc_args tc)) before tr.
Proof.
  intros Hm Hall Hbad.
  destruct (run_tool_calls_all_return E before [] Hall)
    as (tr & results & Hrun & Hevs).
  exists tr. split; [|exact Hevs].
  rewrite (tool_handler_snoc_AI E st pre content _ Hm).
  rewrite run_tool_calls_app, Hrun, bind_Ok, Hbad. reflexivity.
Qed.

(** When the model asks for a tool that is not one of the four,
    [tool_handler] fails with a [KeyError] on that name.  The calls
    before it in the batch have been invoked, in order, the calls after
    it have not, and no tool message is returned, not even for the calls
    that ran. *)
Theorem unknown_tool_fails_the_batch :
  forall (E : Env) (st : State) (pre : list message) (content : string)
         (before : list tool_call) (bad : tool_call)
         (after : list tool_call),
    messages st = pre ++ [AIMessage content (before ++ bad :: after)] ->
    Forall (fun tc => exists t o,
              get_tool (tc_name tc) = Ok t /\
              invoke E t (tc_args tc) = Ok o) before ->
    (forall t, tool_name t <> tc_name bad) ->
    outcome_of (tool_handler E st) = Raise (KeyError (tc_name bad)) /\
    Forall2 (fun tc ev => exists t,
               get_tool (tc_name tc) = Ok t /\
               ev = Invoke t (tc_args tc))
            before (trace_of (tool_handler E st)).
Proof.
  intros E st pre content before bad after Hm Hall Hunknown.
  assert (Hg : get_tool (tc_name bad) = Raise (KeyError (tc_name bad))).
  { unfold get_tool.
    destruct (tools_by_name !! tc_name bad) as [t|] eqn:Hl; [|reflexivity].
    apply tools_by_name_lookup in Hl. exfalso. exact (Hunknown t Hl). }
  destruct (tool_handler_fails_at E st pre content before bad after []
              (KeyError (tc_name bad)) Hm Hall) as (tr & Hth & Hevs).
  { intros acc. rewrite run_tool_calls_cons, Hg. reflexivity. }
  rewrite Hth, app_nil_r. split; [reflexivity | exact Hevs].
Qed.

Lemma unknown_tool_fails_the_batch_witness :
  let E := sample_env (sample_router "respond") model_unknown_tool 25 in
  let bad := {| tc_name := "send_sms"; tc_args := [("to", "Alice")];
                tc_id := "call_7" |} in
  let st := mkState [HumanMessage "Respond to the email";
                     AIMessage "" [call_check; bad; call_write]]
                    (Some sample_email) (Some "respond") in
  outcome_of (tool_handler E st) = Raise (KeyError "send_sms").
Proof.
  intros E bad st.
  refine (proj1 (unknown_tool_fails_the_batch E st
                   [HumanMessage "Respond to the email"] ""
                   [call_check] bad [call_write] eq_refl _ _)).
  - constructor; [|constructor].
    exists check_calendar_availability, "ran check_calendar_availability".
    split; reflexivity.
  - intros t. destruct t; discriminate.
Defined.

(** When a tool raises, [tool_handler] raises the same exception.  The
    calls before it in the batch have been invoked, in order, the failing
    call is the last invocation, the calls after it are not invoked, and
    no tool message is returned. *)
Theorem raising_tool_fails_the_batch :
  forall (E : Env) (st : State) (pre : list message) (content : string)
         (before : list tool_call) (bad : tool_call)
         (after : list tool_call) (t : tool) (x : exn),
    messages st = pre ++ [AIMessage content (before ++ bad :: after)] ->
    Forall (fun tc => exists t o,
              get_tool (tc_name tc) = Ok t /\
              invoke E t (tc_args tc) = Ok o) before ->
    get_tool (tc_name bad) = Ok t ->
    invoke E t (tc_args bad) = Raise x ->
    outcome_of (tool_handler E st) = Raise x /\
    exists tr,
      trace_of (tool_handler E st) = tr ++ [Invoke t (tc_args bad)] /\
      Forall2 (fun tc ev => exists t,
                 get_tool (tc_name tc) = Ok t /\
                 ev = Invoke t (tc_args tc)) before tr.
Proof.
  intros E st pre content before bad after t x Hm Hall Hg Hi.
  destruct (tool_handler_fails_at E st pre content before bad after
              [Invoke t (tc_args bad)] x Hm Hall) as (tr & Hth & Hevs).
  { intros acc. rewrite run_tool_calls_cons, Hg, bind_lift_Ok.
    unfold call_invoke. rewrite Hi. reflexivity. }
  rewrite Hth. split; [reflexivity|]. exists tr. auto.
Qed.

Lemma raising_tool_fails_the_batch_witness :
  let E := mkEnv (sample_router "respond") model_write_and_done
                 invoke_mail_down "" "" "" "" ""
                 (fun _ _ _ _ => "") (fun _ _ _ _ => "")
                 (fun _ _ _ _ => "") 25 in
  let st := mkState [HumanMessage "Respond to the email";
                     AIMessage "" [call_check; call_write; call_done]]
                    (Some sample_email) (Some "respond") in
  outcome_of (tool_handler E st)
  = Raise (External "mail server unreachable").
Proof.
  intros E st.
  refine (proj1 (raising_tool_fails_the_batch E st
                   [HumanMessage "Respond to the email"] ""
                   [call_check] call_write [call_done] write_email
                   (External "mail server unreachable")
                   eq_refl _ eq_refl eq_refl)).
  constructor; [|constructor].
  exists check_calendar_availability, "ran check_calendar_availability".
  split; reflexivity.
Defined.

(** ** Whole runs of the agent graph *)

(** The two ways a step of the agent graph succeeds. *)
Lemma agent_step_Ok (E : Env) (n : node) (st : State) tr nx st' :
  agent_step E n st = (tr, Ok (nx, st')) ->
  email_input st' = email_input st /\
  classification_decision st' = classification_decision st /\
  ((n = node_llm_call /\
    exists content tc rest,
      llm_with_tools E ([agent_system_message E] ++ messages st)
      = Ok (content, tc :: rest) /\
      tr = [Step "llm_call"; Act ([agent_system_message E] ++ messages st)] /\
      messages st' = messages st ++ [AIMessage content (tc :: rest)] /\
      nx = if String.eqb (tc_name tc) "Done" then None
           else Some node_tool_handler) \/
   (n = node_tool_handler /\
    exists pre content tcs results tr',
      messages st = pre ++ [AIMessage content tcs] /\
      run_tool_calls E tcs [] = (tr', Ok results) /\
      tr = Step "tool_handler" :: tr' /\
      messages st' = messages st ++ results /\
      nx = Some node_llm_call)).
Proof.
  intros Hstep. destruct n.
  - rewrite agent_step_llm_call in Hstep.
    destruct (llm_with_tools E _) as [[content tcs]|x] eqn:Hm;
      [|inversion Hstep].
    destruct tcs as [|tc rest]; [inversion Hstep|].
    inversion Hstep; subst; clear Hstep. cbn [email_input
      classification_decision messages].
    split; [reflexivity|]. split; [reflexivity|]. left.
    split; [reflexivity|]. exists content, tc, rest. auto.
  - rewrite agent_step_tool_handler in Hstep.
    destruct (tool_handler E st) as [tr' [u|x]] eqn:Hth;
      [|inversion Hstep].
    unfold outcome_of, trace_of in Hstep. cbn [fst snd] in Hstep.
    inversion Hstep; subst; clear Hstep.
    apply tool_handler_inv in Hth.
    destruct Hth as (pre & content & tcs & results & Hms & Hrun & ->).
    cbn [apply_update email_input classification_decision messages
           upd_messages upd_email_input upd_classification_decision].
    split; [reflexivity|]. split; [reflexivity|]. right.
    split; [reflexivity|]. exists pre, content, tcs, results, tr'.
    unfold add_messages. auto.
Qed.

(** Without the message ids, a run of the agent graph that succeeds only
    adds to the conversation it was given, and the last turn it adds is
    an assistant turn whose first tool call is "Done". *)
Lemma agent_loop_ends_with_done :
  forall (E : Env) (fuel : nat) (n : node) (st : State)
         (tr : list event) (final : State),
    agent_loop E fuel n st = (tr, Ok final) ->
    exists added content tc rest,
      messages final
      = messages st ++ added ++ [AIMessage content (tc :: rest)] /\
      tc_name tc = "Done".
Proof.
  intros E. induction fuel as [|fuel IH]; intros n st tr final Hrun;
    [discriminate|].
  apply agent_loop_Ok in Hrun.
  destruct Hrun as (fuel' & tr1 & nx & st' & tr2 & Hf & Hstep & _ & Hrest).
  inversion Hf; subst fuel'; clear Hf.
  apply agent_step_Ok in Hstep.
  destruct Hstep as (_ & _ & [(_ & content & tc & rest & _ & _ & Hms & Hnx)
                             | (_ & pre & content & tcs & results & tr'
                                & _ & _ & _ & Hms & Hnx)]).
  - destruct (String.eqb (tc_name tc) "Done") eqn:Hd; subst nx.
    + destruct Hrest as [_ ->]. exists [], content, tc, rest.
      split; [exact Hms|]. apply String.eqb_eq. exact Hd.
    + destruct (IH _ _ _ _ Hrest) as (added & c' & tc' & rest' & Hfin & Hd').
      exists (AIMessage content (tc :: rest) :: added), c', tc', rest'.
      split; [|exact Hd']. rewrite Hfin, Hms, <- app_assoc. reflexivity.
  - subst nx.
    destruct (IH _ _ _ _ Hrest) as (added & c' & tc' & rest' & Hfin & Hd').
    exists (results ++ added), c', tc', rest'.
    split; [|exact Hd']. rewrite Hfin, Hms, <- !app_assoc. reflexivity.
Qed.


Lemma agent_step_act_calls_exact (E : Env) (n : node) (st : State) :
  act_calls (trace_of (agent_step E n st))
  = match n with node_llm_call => 1 | node_tool_handler => 0 end.
Proof.
  destruct n.
  - rewrite agent_step_llm_call. reflexivity.
  - rewrite agent_step_tool_handler. unfold trace_of at 1. cbn [fst].
    change (Step "tool_handler" :: trace_of (tool_handler E st))
      with ([Step "tool_handler"] ++ trace_of (tool_handler E st)).
    rewrite act_calls_app, tool_handler_no_act. reflexivity.
Qed.

Lemma agent_step_next (E : Env) (n : node) (st : State) tr n' st' :
  agent_step E n st = (tr, Ok (Some n', st')) -> n' = other_node n.
Proof.
  intros Hstep. apply agent_step_Ok in Hstep.
  destruct Hstep as (_ & _ & [(-> & content & tc & rest & _ & _ & _ & Hnx)
                             | (-> & pre & content & tcs & results & tr'
                                & _ & _ & _ & _ & Hnx)]).
  - destruct (String.eqb (tc_name tc) "Done"); inversion Hnx. reflexivity.
  - inversion Hnx. reflexivity.
Qed.

(** The nodes of a run of the agent graph take turns, [llm_call] and
    [tool_handler], from the node the run starts at, for at most [fuel]
    steps, and the model is called once per [llm_call] step.  So a run
    entered at [llm_call] calls the model at most [(fuel + 1) / 2] times,
    and when it succeeds its last step is an [llm_call]: it made one model
    call more than it made tool rounds. *)
Theorem agent_steps_take_turns :
  forall (E : Env) (fuel : nat) (n : node) (st : State),
    exists k,
      k <= fuel /\
      steps (trace_of (agent_loop E fuel n st)) = alternating n k /\
      match n with
      | node_llm_call =>
          2 * act_calls (trace_of (agent_loop E fuel n st)) <= fuel + 1 /\
          (2 * act_calls (trace_of (agent_loop E fuel n st)) = k \/
           2 * act_calls (trace_of (agent_loop E fuel n st)) = k + 1)
      | node_tool_handler =>
          2 * act_calls (trace_of (agent_loop E fuel n st)) <= fuel /\
          (2 * act_calls (trace_of (agent_loop E fuel n st)) = k \/
           2 * act_calls (trace_of (agent_loop E fuel n st)) + 1 = k)
      end /\
      (forall final,
          outcome_of (agent_loop E fuel n st) = Ok final ->
          match n with
          | node_llm_call =>
              2 * act_calls (trace_of (agent_loop E fuel n st)) = k + 1
          | node_tool_handler =>
              2 * act_calls (trace_of (agent_loop E fuel n st)) = k
          end).
Proof.
  intros E. induction fuel as [|fuel IH]; intros n st.
  - exists 0. split; [lia|]. split; [reflexivity|].
    split; [destruct n; simpl; lia|]. intros final H. discriminate H.
  - rewrite agent_loop_S.
    pose proof (agent_step_act_calls_exact E n st) as Ha.
    pose proof (agent_step_steps E n st) as Hs.
    destruct (agent_step E n st) as [tr1 [[nx st']|x]] eqn:Hstep.
    + rewrite bind_Ok. unfold trace_of, outcome_of in *.
      cbn [fst snd] in *. rewrite act_calls_app, steps_app, Hs, Ha.
      destruct nx as [n'|].
      * pose proof (agent_step_next E n st tr1 n' st' Hstep) as ->.
        destruct (IH (other_node n) st') as (k & Hk & Hst & Hacts & Hok).
        exists (S k). split; [lia|]. split.
        { rewrite Hst. reflexivity. }
        destruct n; cbn [other_node] in *.
        -- split; [lia|]. intros final Hfin.
           specialize (Hok final Hfin). lia.
        -- split; [lia|]. intros final Hfin.
           specialize (Hok final Hfin). lia.
      * assert (Hn : n = node_llm_call).
        { apply agent_step_Ok in Hstep.
          destruct Hstep as (_ & _ & [(Hn & _) | (_ & pre & content & tcs
            & results & tr' & _ & _ & _ & _ & Hnx)]);
            [exact Hn | discriminate Hnx]. }
        subst n. exists 1. split; [lia|].
        destruct fuel; unfold raise, ret; cbn [fst snd];
          change (act_calls []) with 0;
          (split; [reflexivity|]); (split; [lia|]);
          intros final Hfin; try discriminate Hfin; lia.
    + rewrite bind_Raise. unfold trace_of, outcome_of in *.
      cbn [fst snd] in *. rewrite Hs, Ha. exists 1.
      split; [lia|]. split; [reflexivity|].
      split; [destruct n; lia|]. intros final H. discriminate H.
Qed.


Lemma requested_app (ms1 ms2 : list message) :
  requested (ms1 ++ ms2) = requested ms1 ++ requested ms2.
Proof. unfold requested. apply flat_map_app. Qed.

(** What a successful pass of [run_tool_calls] invoked and returned. *)
Lemma run_tool_calls_Ok_requested (E : Env) tcs tr results :
  run_tool_calls E tcs [] = (tr, Ok results) ->
  map invocation_name_args (invocations tr) = map call_name_args tcs /\
  requested results = [].
Proof.
  intros Hrun.
  destruct (run_tool_calls_Ok E _ _ _ _ Hrun) as (new & Hnew & Hms & Hevs).
  simpl in Hnew. subst new. split.
  - clear Hms Hrun. induction Hevs as [|tc ev tcs tr (t & Hg & ->) _ IH];
      [reflexivity|].
    simpl. rewrite IH. unfold invocation_name_args, call_name_args at 1.
    cbn [fst snd]. rewrite (get_tool_Ok _ _ Hg). reflexivity.
  - clear Hevs Hrun.
    induction Hms as [|tc m tcs results (t & o & _ & _ & ->) _ IH];
      [reflexivity | exact IH].
Qed.





(** ** Whole runs of the workflow *)

(** The ways [triage_router] succeeds. *)
Lemma triage_router_Ok (E : Env) (st : State) tr cmd :
  triage_router E st = (tr, Ok cmd) ->
  exists e r,
    email_input st = Some e /\
    llm_router E (triage_prompt E e) = Ok r /\
    tr = [Classify (triage_prompt E e)] /\
    upd_email_input (cmd_update cmd) = None /\
    upd_classification_decision (cmd_update cmd)
    = Some (classification r) /\
    ((classification r = "respond" /\ goto cmd = response_agent /\
      exists seed, upd_messages (cmd_update cmd) = Some [seed] /\
                   requested [seed] = [] /\ call_ids [seed] = [] /\
                   result_ids [seed] = []) \/
     ((classification r = "ignore" \/ classification r = "notify") /\
      goto cmd = END_of_workflow /\
      upd_messages (cmd_update cmd) = None)).
Proof.
  intros Ht.
  destruct (email_input st) as [e|] eqn:He.
  - destruct (llm_router E (triage_prompt E e)) as [r|x] eqn:Hr.
    + rewrite (triage_router_answered E st e r He Hr) in Ht.
      exists e, r. split; [reflexivity|]. split; [exact Hr|].
      destruct (String.eqb (classification r) "respond") eqn:H1.
      * apply String.eqb_eq in H1. inversion Ht; subst. cbn.
        repeat split. left. repeat split; try assumption.
        eexists. repeat split.
      * destruct (String.eqb (classification r) "ignore") eqn:H2.
        -- apply String.eqb_eq in H2. inversion Ht; subst. cbn.
           repeat split. right. auto.
        -- destruct (String.eqb (classification r) "notify") eqn:H3.
           ++ apply String.eqb_eq in H3. inversion Ht; subst. cbn.
              repeat split. right. auto.
           ++ discriminate Ht.
    + unfold triage_router, get_email_input in Ht.
      rewrite He, bind_lift_Ok in Ht. destruct e as [a t s th].
      cbn [parse_email] in Ht. unfold call_llm_router in Ht.
      rewrite Hr in Ht. discriminate Ht.
  - unfold triage_router, get_email_input in Ht. rewrite He in Ht.
    discriminate Ht.
Qed.

(** A run of the agent graph that succeeds only adds to the
    conversation. *)
Lemma agent_loop_appends (E : Env) :
  forall fuel n st tr final,
    agent_loop E fuel n st = (tr, Ok final) ->
    exists added, messages final = messages st ++ added.
Proof.
  induction fuel as [|fuel IH]; intros n st tr final Hrun; [discriminate|].
  apply agent_loop_Ok in Hrun.
  destruct Hrun as (fuel' & tr1 & nx & st' & tr2 & Hf & Hstep & _ & Hrest).
  inversion Hf; subst fuel'; clear Hf.
  assert (Hone : exists added, messages st' = messages st ++ added).
  { apply agent_step_Ok in Hstep.
    destruct Hstep as (_ & _ & [(_ & content & tc & rest & _ & _ & Hms & _)
                               | (_ & pre & content & tcs & results & tr'
                                  & _ & _ & _ & Hms & _)]);
      eexists; exact Hms. }
  destruct Hone as [added1 Hone]. destruct nx as [n'|].
  - destruct (IH _ _ _ _ Hrest) as [added2 Htwo].
    exists (added1 ++ added2). rewrite Htwo, Hone, app_assoc. reflexivity.
  - destruct Hrest as [_ ->]. exists added1. exact Hone.
Qed.

(** The two ways the workflow succeeds. *)
Lemma overall_workflow_Ok (E : Env) (input : State) tr final :
  overall_workflow E input = (tr, Ok final) ->
  exists e r,
    email_input input = Some e /\
    llm_router E (triage_prompt E e) = Ok r /\
    (((classification r = "ignore" \/ classification r = "notify") /\
      final = mkState (messages input) (email_input input)
                      (Some (classification r))) \/
     (classification r = "respond" /\
      exists seed tr2,
        requested [seed] = [] /\ call_ids [seed] = [] /\
        result_ids [seed] = [] /\
        agent E (mkState (messages input ++ [seed]) (email_input input)
                         (Some (classification r)))
        = (tr2, Ok final))).
Proof.
  rewrite overall_workflow_unfold, bind_emit.
  destruct (triage_router E input) as [tr1 [cmd|x]] eqn:Ht;
    [|rewrite bind_Raise; discriminate].
  rewrite bind_Ok. cbn [fst snd].
  apply triage_router_Ok in Ht.
  destruct Ht as (e & r & He & Hr & _ & Hue & Huc & Hcases).
  intros Hrun. exists e, r. split; [exact He|]. split; [exact Hr|].
  unfold apply_update in Hrun. rewrite Hue, Huc in Hrun.
  destruct Hcases as [(Hc & Hg & seed & Hum & Hq & Hci & Hri)
                     | (Hc & Hg & Hum)];
    rewrite Hg, Hum in Hrun.
  - right. split; [exact Hc|]. rewrite bind_emit in Hrun.
    unfold add_messages in Hrun.
    destruct (agent E _) as [tr2 res] eqn:Hag. cbn [fst snd] in Hrun.
    inversion Hrun; subst. exists seed, tr2. auto.
  - left. split; [exact Hc|]. inversion Hrun; subst. reflexivity.
Qed.

(** A workflow that succeeds has recorded the category the router model
    gave, which is one of "respond", "ignore" and "notify"; it has kept
    [email_input]; and it has only added to the conversation, nothing at
    all unless the category is "respond". *)
Theorem successful_workflow_records_the_category :
  forall (E : Env) (input : State) (tr : list event) (final : State),
    overall_workflow E input = (tr, Ok final) ->
    exists e r added,
      email_input input = Some e /\
      llm_router E (triage_prompt E e) = Ok r /\
      (classification r = "respond" \/ classification r = "ignore" \/
       classification r = "notify") /\
      classification_decision final = Some (classification r) /\
      email_input final = email_input input /\
      messages final = messages input ++ added /\
      (classification r <> "respond" -> added = []).
Proof.
  intros E input tr final Hrun. apply overall_workflow_Ok in Hrun.
  destruct Hrun as (e & r & He & Hr & [(Hc & ->)
                    | (Hc & seed & tr2 & _ & _ & _ & Hag)]).
  - exists e, r, []. cbn [classification_decision email_input messages].
    split; [exact He|]. split; [exact Hr|].
    split; [destruct Hc; auto|]. split; [reflexivity|].
    split; [reflexivity|]. split; [symmetry; apply app_nil_r|].
    intros _. reflexivity.
  - unfold agent in Hag.
    destruct (agent_loop_frame E _ _ _ _ _ Hag) as [Hfe Hfc].
    destruct (agent_loop_appends E _ _ _ _ _ Hag) as [added Hadd].
    cbn [email_input classification_decision messages] in Hfe, Hfc, Hadd.
    exists e, r, (seed :: added).
    split; [exact He|]. split; [exact Hr|]. split; [left; exact Hc|].
    split; [exact Hfc|]. split; [exact Hfe|].
    split; [rewrite Hadd, <- app_assoc; reflexivity|].
    intros Hne. contradiction.
Qed.

Lemma successful_workflow_records_the_category_witness :
  let E := sample_env (sample_router "respond") model_three_rounds 25 in
  exists final,
    outcome_of (overall_workflow E sample_input) = Ok final /\
    classification_decision final = Some "respond" /\
    email_input final = Some sample_email.
Proof.
  intros E.
  destruct (overall_workflow E sample_input) as [tr [final|x]] eqn:Hrun;
    [|vm_compute in Hrun; discriminate Hrun].
  destruct (successful_workflow_records_the_category E sample_input tr final
              Hrun) as (e & r & added & He & Hr & _ & Hc & Hfe & _).
  exists final. split; [reflexivity|].
  cbn in Hr. inversion Hr; subst r. cbn in Hc. auto.
Defined.

(** When the model gives its calls ids new to the conversation and the
    conversation the workflow is given is in order, the conversation of a
    workflow that succeeds is in order: call ids are distinct, every tool
    result answers a call, and no call has two results. *)
Theorem workflow_answers_each_call_once :
  forall (E : Env) (input : State) (tr : list event) (final : State),
    fresh_ids E ->
    conversation_ok (messages input) ->
    overall_workflow E input = (tr, Ok final) ->
    conversation_ok (messages final) /\
    (forall id, results_for id (messages final) <= 1).
Proof.
  intros E input tr final Hfresh Hok Hrun.
  assert (Hfin : conversation_ok (messages final)).
  { apply overall_workflow_Ok in Hrun.
    destruct Hrun as (e & r & He & Hr & [(Hc & ->)
                      | (Hc & seed & tr2 & _ & Hci & Hri & Hag)]).
    - exact Hok.
    - unfold agent in Hag.
      apply (agent_loop_keeps_order E Hfresh _ _ _ _ _) with (2 := Hag).
      cbn [node_ready messages]. destruct Hok as (H1 & H2 & H3).
      unfold conversation_ok.
      rewrite call_ids_app, result_ids_app, Hci, Hri, !app_nil_r. auto. }
  split; [exact Hfin|].
  intros id. apply NoDup_results_for. destruct Hfin as (_ & H & _). exact H.
Qed.

Lemma model_counting_done_fresh
    (router : list message -> result RouterSchema) (limit : nat) :
  fresh_ids (sample_env router model_counting_done limit).
Proof.
  intros prompt content tcs H. cbn in H. unfold model_counting_done in H.
  inversion H; subst; clear H. cbn [map tc_id]. split.
  - apply NoDup_singleton.
  - intros id Hid Hin. apply list_elem_of_singleton in Hid. subst id.
    apply longer_than_every_id in Hin. lia.
Qed.

Lemma workflow_answers_each_call_once_witness :
  let E := sample_env (sample_router "respond") model_counting_done 25 in
  exists final,
    outcome_of (overall_workflow E sample_input) = Ok final /\
    conversation_ok (messages final) /\
    results_for "i" (messages final) <= 1.
Proof.
  intros E.
  destruct (overall_workflow E sample_input) as [tr [final|x]] eqn:Hrun;
    [|vm_compute in Hrun; discriminate Hrun].
  assert (Hin : conversation_ok (messages sample_input)).
  { repeat split.
    - apply NoDup_nil. exact I.
    - apply NoDup_nil. exact I.
    - intros id Hid. exact Hid. }
  destruct (workflow_answers_each_call_once E sample_input tr final
              (model_counting_done_fresh _ _) Hin Hrun) as [Hok Hone].
  exists final. split; [reflexivity|]. split; [exact Hok | apply Hone].
Defined.

(** ** The evaluation notebook *)

(** How [target_email_assistant] succeeds on the triage node of the
    agent notebook. *)
Lemma target_email_assistant_Ok (E : Env) (inputs : gmap string email)
    tr out :
  target_email_assistant (triage_router E) inputs = (tr, Ok out) ->
  exists e r,
    inputs !! "email_input" = Some e /\
    llm_router E (triage_prompt E e) = Ok r /\
    (classification r = "respond" \/ classification r = "ignore" \/
     classification r = "notify") /\
    tr = [Classify (triage_prompt E e)] /\
    out = {["classification_decision" := classification r]}.
Proof.
  unfold target_email_assistant, dict_get.
  destruct (inputs !! "email_input") as [e|] eqn:Hin; [|discriminate].
  rewrite bind_lift_Ok. intros Hrun. apply bind_inv_Ok in Hrun.
  destruct Hrun as (tr1 & cmd & tr2 & Ht & Hk & ->).
  apply triage_router_Ok in Ht.
  destruct Ht as (e' & r & He & Hr & -> & _ & Huc & Hcases).
  cbn [email_input] in He. inversion He; subst e'.
  rewrite Huc in Hk. inversion Hk; subst.
  exists e, r. rewrite app_nil_r. repeat split; auto.
  destruct Hcases as [(Hc & _) | ([Hc|Hc] & _)]; auto.
Qed.

(** [target_email_assistant], run on the triage node of the agent
    notebook, succeeds exactly when the inputs hold an email and the
    router model answers with one of the three categories.  It then made
    the one router call and returns a dict whose only key,
    [classification_decision], holds that category; the key it reads is
    present in the update of every [Command] the node returns. *)
Theorem target_email_assistant_returns_the_category :
  forall (E : Env) (inputs : gmap string email) (tr : list event)
         (out : gmap string string),
    target_email_assistant (triage_router E) inputs = (tr, Ok out) <->
    exists e r,
      inputs !! "email_input" = Some e /\
      llm_router E (triage_prompt E e) = Ok r /\
      (classification r = "respond" \/ classification r = "ignore" \/
       classification r = "notify") /\
      tr = [Classify (triage_prompt E e)] /\
      out = {["classification_decision" := classification r]}.
Proof.
  intros E inputs tr out. split; [apply target_email_assistant_Ok|].
  unfold target_email_assistant, dict_get.
  intros (e & r & Hin & Hr & Hc & -> & ->). rewrite Hin, bind_lift_Ok.
  rewrite (triage_router_answered E (mkState [] (Some e) None) e r
             eq_refl Hr).
  destruct Hc as [Hc | [Hc | Hc]]; rewrite Hc; reflexivity.
Qed.

Section Scoring.

Variable lower : string -> string.

(** Scoring a triage run: on the output of a [target_email_assistant]
    that succeeded, [classification_evaluator] always finds its
    [classification_decision] key.  It compares the router's category and
    the reference label in lower case, and fails, with a [KeyError], only
    when the reference has no "classification" key. *)
Theorem triage_run_is_scored_in_lower_case :
  forall (E : Env) (inputs : gmap string email) (tr : list event)
         (out reference_outputs : gmap string string),
    target_email_assistant (triage_router E) inputs = (tr, Ok out) ->
    exists e r,
      inputs !! "email_input" = Some e /\
      llm_router E (triage_prompt E e) = Ok r /\
      classification_evaluator lower out reference_outputs
      = match reference_outputs !! "classification" with
        | Some reference =>
            Ok (String.eqb (lower (classification r)) (lower reference))
        | None => Raise (KeyError "classification")
        end.
Proof.
  intros E inputs tr out reference_outputs Hrun.
  apply target_email_assistant_Ok in Hrun.
  destruct Hrun as (e & r & Hin & Hr & _ & _ & ->).
  exists e, r. split; [exact Hin|]. split; [exact Hr|].
  unfold classification_evaluator, dict_get.
  rewrite lookup_singleton_eq.
  destruct (reference_outputs !! "classification"); reflexivity.
Qed.

(** The test on tool calls passes exactly when the lower-case form of
    every expected call is among the extracted names.  Only membership
    counts: two lists of extracted names with the same elements, in any
    order and with any repetition, give the same missing calls. *)
Theorem tool_calls_test_checks_membership_only :
  forall (expected_calls extracted extracted' : list string),
    (tool_calls_test_passes lower expected_calls extracted = true <->
     forall call, call ∈ expected_calls -> lower call ∈ extracted) /\
    ((forall name, name ∈ extracted <-> name ∈ extracted') ->
     missing_calls lower expected_calls extracted
     = missing_calls lower expected_calls extracted').
Proof.
  intros expected_calls extracted extracted'. split.
  - unfold tool_calls_test_passes, missing_calls.
    rewrite Nat.eqb_eq, length_zero_iff_nil. split.
    + intros Hnil call Hin.
      destruct (decide (lower call ∈ extracted)) as [Hyes|Hno];
        [exact Hyes|].
      assert (Hmiss : call ∈ filter (fun call => lower call ∉ extracted)
                                    expected_calls).
      { apply list_elem_of_filter. auto. }
      rewrite Hnil in Hmiss. apply elem_of_nil in Hmiss. contradiction.
    + intros Hall.
      induction expected_calls as [|call rest IH]; [reflexivity|].
      rewrite filter_cons.
      destruct (decide (lower call ∉ extracted)) as [Hno|_].
      * exfalso. apply Hno, Hall. left.
      * apply IH. intros c Hc. apply Hall. right. exact Hc.
  - intros Hsame. unfold missing_calls.
    induction expected_calls as [|call rest IH]; [reflexivity|].
    rewrite !filter_cons, IH.
    destruct (decide (lower call ∉ extracted)) as [Hno|Hyes];
      destruct (decide (lower call ∉ extracted')) as [Hno'|Hyes'];
      try reflexivity.
    + exfalso. apply Hyes'. intros Hin. apply Hno, Hsame, Hin.
    + exfalso. apply Hyes. intros Hin. apply Hno', Hsame, Hin.
Qed.

End Scoring.

Lemma tool_calls_test_checks_membership_only_witness :
  missing_calls ascii_lower ["write_email"; "Done"]
                ["done"; "write_email"; "done"]
  = missing_calls ascii_lower ["write_email"; "Done"]
                  ["write_email"; "done"].
Proof.
  refine (proj2 (tool_calls_test_checks_membership_only ascii_lower
                   ["write_email"; "Done"] ["done"; "write_email"; "done"]
                   ["write_email"; "done"]) _).
  intros name. rewrite !elem_of_cons. intuition.
Defined.

Lemma triage_run_is_scored_in_lower_case_witness :
  let E := sample_env (sample_router "notify") model_never_done 25 in
  exists out,
    outcome_of (target_email_assistant (triage_router E)
                  {["email_input" := sample_email]}) = Ok out /\
    classification_evaluator ascii_lower out {["classification" := "Notify"]}
    = Ok true.
Proof.
  intros E.
  destruct (target_email_assistant (triage_router E)
              {["email_input" := sample_email]}) as [tr [out|x]] eqn:Hrun;
    [|vm_compute in Hrun; discriminate Hrun].
  destruct (triage_run_is_scored_in_lower_case ascii_lower E
              {["email_input" := sample_email]} tr out
              {["classification" := "Notify"]} Hrun)
    as (e & r & Hin & Hr & Hscore).
  exists out. split; [reflexivity|].
  rewrite Hscore. cbn in Hr. inversion Hr; subst r. reflexivity.
Defined.

(** ** What the agent model is shown *)

Lemma act_prompts_app (tr1 tr2 : list event) :
  act_prompts (tr1 ++ tr2) = act_prompts tr1 ++ act_prompts tr2.
Proof. unfold act_prompts. apply flat_map_app. Qed.

Lemma run_tool_calls_no_prompt (E : Env) tcs acc :
  act_prompts (trace_of (run_tool_calls E tcs acc)) = [].
Proof.
  destruct (run_tool_calls_trace E tcs acc) as [k Hk].
  induction Hk as [|tc ev l tr (t & _ & ->) _ IH]; [reflexivity|].
  exact IH.
Qed.

(** Without the message ids, every call to the model in a run of the
    agent graph that succeeds is given the system prompt followed by a
    conversation that starts with the one the run was given and is an
    initial part of the final one. *)
Lemma agent_loop_prompts_extend :
  forall (E : Env) (fuel : nat) (n : node) (st : State)
         (tr : list event) (final : State),
    agent_loop E fuel n st = (tr, Ok final) ->
    Forall (fun prompt =>
              exists added rest,
                prompt = [agent_system_message E] ++ messages st ++ added /\
                messages final = messages st ++ added ++ rest)
           (act_prompts tr).
Proof.
  intros E. induction fuel as [|fuel IH]; intros n st tr final Hrun;
    [discriminate|].
  pose proof (agent_loop_appends E _ _ _ _ _ Hrun) as [all Hall].
  apply agent_loop_Ok in Hrun.
  destruct Hrun as (fuel' & tr1 & nx & st' & tr2 & Hf & Hstep & -> & Hrest).
  inversion Hf; subst fuel'; clear Hf.
  rewrite act_prompts_app. apply Forall_app. split.
  - apply agent_step_Ok in Hstep.
    destruct Hstep as (_ & _ & [(_ & content & tc & rest & _ & -> & _ & _)
                               | (_ & pre & content & tcs & results & tr'
                                  & _ & Hrun & -> & _ & _)]).
    + constructor; [|constructor]. exists [], all.
      rewrite app_nil_r. auto.
    + change (Step "tool_handler" :: tr') with ([Step "tool_handler"] ++ tr').
      rewrite act_prompts_app.
      pose proof (run_tool_calls_no_prompt E tcs []) as Hnone.
      rewrite Hrun in Hnone. unfold trace_of in Hnone. cbn [fst] in Hnone.
      rewrite Hnone. constructor.
  - assert (Hone : exists added1, messages st' = messages st ++ added1).
    { apply agent_step_Ok in Hstep.
      destruct Hstep as (_ & _ & [(_ & content & tc & rest & _ & _ & Hms & _)
                                 | (_ & pre & content & tcs & results & tr'
                                    & _ & _ & _ & Hms & _)]);
        eexists; exact Hms. }
    destruct Hone as [added1 Hone]. destruct nx as [n'|].
    + specialize (IH _ _ _ _ Hrest).
      eapply Forall_impl; [exact IH|].
      intros prompt (added & rest & -> & Hfin).
      exists (added1 ++ added), rest. rewrite Hone in *.
      rewrite <- !app_assoc in *. auto.
    + destruct Hrest as [-> _]. constructor.
Qed.


(** ** The step budget of the agent graph *)






(** ** A tool-call id used twice *)

(** C6, as the specification words it, fails: the handler checks no id.
    The last assistant turn asks for two calls under the one id
    "call_3".  Before [tool_handler] runs no call id has more than one
    tool result; after it "call_3" has two. *)
Lemma repeated_call_id_gets_two_results :
  let E := sample_env (sample_router "respond") model_write_and_done 25 in
  let st := mkState [HumanMessage "Respond to the email";
                     AIMessage "" [call_check; call_check_again]]
                    (Some sample_email) (Some "respond") in
  (forall id, id ∈ call_ids (messages st) ->
              results_for id (messages st) <= 1) /\
  exists tr st',
    agent_step E node_tool_handler st = (tr, Ok (Some node_llm_call, st')) /\
    "call_3" ∈ call_ids (messages st') /\
    results_for "call_3" (messages st') = 2 /\
    ~ (forall id, id ∈ call_ids (messages st') ->
                  results_for id (messages st') <= 1).
Proof.
  intros E st. split.
  - intros id _. change (results_for id (messages st)) with 0. lia.
  - exists [Step "tool_handler";
            Invoke check_calendar_availability (tc_args call_check);
            Invoke check_calendar_availability (tc_args call_check_again)],
           (mkState [HumanMessage "Respond to the email";
                     AIMessage "" [call_check; call_check_again];
                     ToolMessage "ran check_calendar_availability" "call_3";
                     ToolMessage "ran check_calendar_availability" "call_3"]
                    (Some sample_email) (Some "respond")).
    split; [reflexivity|]. cbn [messages].
    assert (Hin : "call_3" ∈ call_ids
                    [HumanMessage "Respond to the email";
                     AIMessage "" [call_check; call_check_again];
                     ToolMessage "ran check_calendar_availability" "call_3";
                     ToolMessage "ran check_calendar_availability" "call_3"]).
    { apply list_elem_of_In. cbn. auto. }
    assert (Htwo : results_for "call_3"
                     [HumanMessage "Respond to the email";
                      AIMessage "" [call_check; call_check_again];
                      ToolMessage "ran check_calendar_availability" "call_3";
                      ToolMessage "ran check_calendar_availability" "call_3"]
                   = 2) by reflexivity.
    split; [exact Hin|]. split; [exact Htwo|].
    intros Hall. specialize (Hall "call_3" Hin). rewrite Htwo in Hall. lia.
Qed.

(** ** Message ids *)

Lemma replace_by_id_absent (id : string) (m : message) (l : list stamped) :
  id ∉ map fst l -> replace_by_id id m l = None.
Proof.
  induction l as [|x l IH]; intros Hn; [reflexivity|].
  cbn [map] in Hn. apply not_elem_of_cons in Hn. destruct Hn as [Hx Hl].
  cbn [replace_by_id]. rewrite (IH Hl).
  destruct (String.eqb_spec (fst x) id) as [Heq|_]; [|reflexivity].
  exfalso. apply Hx. symmetry. exact Heq.
Qed.

(** The id a turn ends up with is one of those brought for it. *)
Lemma given_id_brought (src : IdSource) (given : nat -> option string)
    (k : nat) :
  given k = None \/ given k = reply_id src k ->
  match given k with Some i => i | None => uuid4 src k end ∈ brought src k.
Proof.
  unfold brought. intros [-> | ->].
  - apply elem_of_cons. left. reflexivity.
  - destruct (reply_id src k) as [i|]; apply elem_of_cons.
    + right. apply elem_of_cons. left. reflexivity.
    + left. reflexivity.
Qed.

(** Turns added to a conversation none of whose ids is brought again
    are appended. *)
Lemma add_messages_ids_fresh (src : IdSource)
    (given : nat -> option string) :
  (forall k, given k = None \/ given k = reply_id src k) ->
  (forall j k i, i ∈ brought src j -> i ∈ brought src k -> j = k) ->
  forall new left d,
    (forall k i, d <= k -> i ∈ brought src k -> i ∉ map fst left) ->
    exists added,
      add_messages_ids (uuid4 src) given left d new
      = (left ++ added, d + length new) /\
      map snd added = new /\
      (forall k i, d + length new <= k -> i ∈ brought src k ->
                   i ∉ map fst (left ++ added)).
Proof.
  intros Hgiven Hinj. induction new as [|m new IH]; intros left d Hfresh.
  - exists []. cbn. rewrite app_nil_r, Nat.add_0_r. auto.
  - cbn [add_messages_ids].
    pose proof (given_id_brought src given d (Hgiven d)) as Hid.
    set (id := match given d with Some i => i | None => uuid4 src d end) in *.
    rewrite (replace_by_id_absent id m left (Hfresh d id (le_n d) Hid)).
    destruct (IH (left ++ [(id, m)]) (S d)) as (added & Hadd & Hsnd & Hnew).
    { intros k i Hk Hi. rewrite map_app. cbn [map fst].
      intros Hin. apply elem_of_app in Hin. destruct Hin as [Hin|Hin].
      - apply (Hfresh k i); [lia | exact Hi | exact Hin].
      - apply list_elem_of_singleton in Hin. subst i.
        pose proof (Hinj _ _ _ Hid Hi). lia. }
    exists ((id, m) :: added). split; [etransitivity; [exact Hadd|]|split].
    + rewrite <- app_assoc. cbn [length]. f_equal. lia.
    + cbn [map snd]. rewrite Hsnd. reflexivity.
    + intros k i Hk. cbn [length] in Hk.
      replace (left ++ (id, m) :: added)
        with ((left ++ [(id, m)]) ++ added)
        by (rewrite <- app_assoc; reflexivity).
      apply Hnew. lia.
Qed.

(** Folding an update into a state whose ids are new is appending. *)
Lemma apply_update_ids_fresh (src : IdSource) (s : IState) (u : update)
    (given : nat -> option string) :
  (forall k, given k = None \/ given k = reply_id src k) ->
  fresh_draws src s ->
  erase (apply_update_ids src s u given) = apply_update (erase s) u /\
  fresh_draws src (apply_update_ids src s u given) /\
  exists added,
    imessages (apply_update_ids src s u given) = imessages s ++ added.
Proof.
  intros Hgiven (Hinj & Hfresh).
  unfold apply_update_ids, apply_update, erase, add_messages.
  destruct (upd_messages u) as [new|].
  - destruct (add_messages_ids_fresh src given Hgiven Hinj new (imessages s)
                (arrived s) Hfresh) as (added & Hadd & Hsnd & Hnew).
    rewrite Hadd. cbn [fst snd imessages arrived iemail_input
      iclassification_decision messages email_input classification_decision].
    split; [|split].
    + rewrite map_app, Hsnd. reflexivity.
    + split; [exact Hinj | exact Hnew].
    + exists added. reflexivity.
  - cbn [fst snd imessages arrived iemail_input iclassification_decision
           messages email_input classification_decision].
    split; [reflexivity|]. split.
    + split; [exact Hinj | exact Hfresh].
    + exists []. rewrite app_nil_r. reflexivity.
Qed.

(** A step of the graph with ids that are new is the step without the
    ids, and it appends. *)
Lemma agent_step_ids_erase (src : IdSource) (E : Env) (n : node)
    (s : IState) :
  fresh_draws src s ->
  map_outcome (fun r => (fst r, erase (snd r))) (agent_step_ids src E n s)
  = agent_step E n (erase s) /\
  (forall nx s',
      outcome_of (agent_step_ids src E n s) = Ok (nx, s') ->
      fresh_draws src s' /\
      exists added, imessages s' = imessages s ++ added).
Proof.
  intros Hf.
  unfold agent_step_ids, agent_step. rewrite !bind_emit.
  unfold map_outcome, outcome_of. cbn [fst snd]. destruct n.
  - destruct (llm_call E (erase s)) as [tr [u|x]] eqn:Hl.
    + rewrite !bind_Ok. cbn [fst snd].
      destruct (apply_update_ids_fresh src s u (reply_id src)
                  (fun k => or_intror eq_refl) Hf) as (He & Hf' & Hadd).
      rewrite He.
      destruct (follow_should_continue (apply_update (erase s) u)) as [nx|x].
      * rewrite !bind_lift_Ok. cbn [ret fst snd]. rewrite He.
        split; [reflexivity|]. intros nx' s' H. inversion H; subst. auto.
      * unfold lift. rewrite !bind_Raise. cbn [fst snd].
        split; [reflexivity|]. intros nx' s' H. discriminate H.
    + rewrite !bind_Raise. cbn [fst snd].
      split; [reflexivity|]. intros nx' s' H. discriminate H.
  - destruct (tool_handler E (erase s)) as [tr [u|x]] eqn:Hth.
    + rewrite !bind_Ok. cbn [ret fst snd].
      destruct (apply_update_ids_fresh src s u no_id
                  (fun k => or_introl eq_refl) Hf) as (He & Hf' & Hadd).
      rewrite He. split; [reflexivity|].
      intros nx' s' H. inversion H; subst. auto.
    + rewrite !bind_Raise. cbn [fst snd].
      split; [reflexivity|]. intros nx' s' H. discriminate H.
Qed.

Lemma agent_loop_ids_S (src : IdSource) (E : Env) (fuel : nat) (n : node)
    (s : IState) :
  agent_loop_ids src E (S fuel) n s =
  bind (agent_step_ids src E n s) (fun r =>
    match fst r with
    | None =>
        match fuel with
        | O => raise GraphRecursionError
        | S _ => ret (snd r)
        end
    | Some n' => agent_loop_ids src E fuel n' (snd r)
    end).
Proof. reflexivity. Qed.

(** A run of the agent graph with ids that are new is, the ids left
    out, the run without ids; and when it succeeds it has only appended
    to the conversation. *)
Lemma agent_loop_ids_erase (src : IdSource) (E : Env) :
  forall fuel n s,
    fresh_draws src s ->
    map_outcome erase (agent_loop_ids src E fuel n s)
    = agent_loop E fuel n (erase s) /\
    (forall final,
        outcome_of (agent_loop_ids src E fuel n s) = Ok final ->
        exists added, imessages final = imessages s ++ added).
Proof.
  induction fuel as [|fuel IH]; intros n s Hf.
  - split; [reflexivity|]. intros final H. discriminate H.
  - rewrite agent_loop_ids_S, agent_loop_S.
    destruct (agent_step_ids_erase src E n s Hf) as [Hstep Hnext].
    rewrite <- Hstep.
    destruct (agent_step_ids src E n s) as [tr1 [[nx s']|x]].
    + unfold map_outcome at 2. cbn [fst snd]. rewrite !bind_Ok.
      cbn [fst snd].
      destruct (Hnext nx s' eq_refl) as [Hf' [added1 Hadd1]].
      destruct nx as [n'|].
      * destruct (IH n' s' Hf') as [Hrec Happ]. rewrite <- Hrec.
        unfold map_outcome, outcome_of. cbn [fst snd]. split; [reflexivity|].
        intros final Hfin. destruct (Happ final Hfin) as [added2 Hadd2].
        exists (added1 ++ added2). rewrite Hadd2, Hadd1, app_assoc.
        reflexivity.
      * destruct fuel as [|fuel]; unfold map_outcome, outcome_of, raise, ret;
          cbn [fst snd].
        -- split; [reflexivity|]. intros final H. discriminate H.
        -- split; [reflexivity|]. intros final H. inversion H; subst.
           exists added1. exact Hadd1.
    + unfold map_outcome, outcome_of. cbn [fst snd]. rewrite !bind_Raise.
      cbn [fst snd]. split; [reflexivity|]. intros final H. discriminate H.
Qed.

(** The same for the whole workflow. *)
Lemma overall_workflow_ids_erase (src : IdSource) (E : Env) (input : IState) :
  fresh_draws src input ->
  map_outcome erase (overall_workflow_ids src E input)
  = overall_workflow E (erase input).
Proof.
  intros Hf. unfold overall_workflow_ids. rewrite overall_workflow_unfold.
  rewrite !bind_emit.
  destruct (triage_router E (erase input)) as [tr [cmd|x]].
  - rewrite !bind_Ok. cbn [fst snd].
    destruct (apply_update_ids_fresh src input (cmd_update cmd) no_id
                (fun k => or_introl eq_refl) Hf) as (He & Hf' & _).
    rewrite <- He. destruct (goto cmd).
    + rewrite !bind_emit. unfold agent.
      destruct (agent_loop_ids_erase src E (recursion_limit E) node_llm_call
                  _ Hf') as [Hrun _].
      rewrite <- Hrun. unfold map_outcome. cbn [fst snd]. reflexivity.
    + unfold map_outcome, ret. cbn [fst snd]. reflexivity.
  - rewrite !bind_Raise. reflexivity.
Qed.

Lemma map_outcome_Ok {A B} (f : A -> B) (m : M A) (m' : M B) tr a :
  map_outcome f m = m' -> m = (tr, Ok a) -> m' = (tr, Ok (f a)).
Proof. intros <- ->. reflexivity. Qed.

Lemma letters_length (c : string) (k : nat) :
  String.length (letters c k) = S k * String.length c.
Proof.
  unfold letters. induction k as [|k IH].
  - cbn. rewrite string_length_append. cbn. lia.
  - change (repeat c (S (S k))) with (c :: repeat c (S k)).
    cbn [fold_right]. rewrite string_length_append, IH. lia.
Qed.

Lemma letters_inj (c1 c2 : string) (j k : nat) :
  String.length c1 = 1 -> String.length c2 = 1 ->
  letters c1 j = letters c2 k -> j = k.
Proof.
  intros H1 H2 Heq. apply (f_equal String.length) in Heq.
  rewrite !letters_length, H1, H2 in Heq. lia.
Qed.

(** Ids drawn as runs of one letter and given by the model as runs of
    another are new to the empty conversation. *)
Lemma fresh_draws_letters (c r : string) :
  String.length c = 1 -> String.length r = 1 ->
  fresh_draws (mkIdSource (letters c) (fun k => Some (letters r k)))
              sample_istate.
Proof.
  intros Hc Hr. split.
  - intros j k i Hj Hk. unfold brought in Hj, Hk. cbn [uuid4 reply_id] in *.
    apply elem_of_cons in Hj. apply elem_of_cons in Hk.
    rewrite list_elem_of_singleton in Hj, Hk.
    destruct Hj as [-> | ->]; destruct Hk as [Hk | Hk];
      first [ exact (letters_inj c c j k Hc Hc Hk)
            | exact (letters_inj c r j k Hc Hr Hk)
            | exact (letters_inj r c j k Hr Hc Hk)
            | exact (letters_inj r r j k Hr Hr Hk) ].
  - intros k i _ _ Hin. cbn in Hin. apply elem_of_nil in Hin. exact Hin.
Qed.

(** ** A run played again *)

Lemma Forall_trace_bind {A B} (P : event -> Prop) (m : M A) (k : A -> M B) :
  Forall P (fst (bind m k)) ->
  Forall P (fst m) /\ (forall a, snd m = Ok a -> Forall P (fst (k a))).
Proof.
  destruct m as [tr [a|x]].
  - rewrite bind_Ok. cbn [fst snd]. intros H. apply Forall_app in H.
    destruct H as [H1 H2]. split; [exact H1|].
    intros a' Ha. inversion Ha; subst. exact H2.
  - rewrite bind_Raise. cbn [fst snd]. intros H. split; [exact H|].
    intros a Ha. discriminate Ha.
Qed.

Section Replay.

Variables E1 E2 : Env.
Hypothesis Hprog : same_program E1 E2.

Lemma same_triage_prompt (e : email) :
  triage_prompt E2 e = triage_prompt E1 e.
Proof.
  destruct Hprog as (Hb & Ht & _ & _ & _ & Hu & _).
  unfold triage_prompt. destruct e as [a t s th]. cbn [parse_email].
  rewrite Hb, Ht, Hu. reflexivity.
Qed.

Lemma same_agent_system_message :
  agent_system_message E2 = agent_system_message E1.
Proof.
  destruct Hprog as (Hb & _ & Hp & Hc & Ha & _ & Hs & _).
  unfold agent_system_message. rewrite Hb, Hp, Hc, Ha, Hs. reflexivity.
Qed.

(** A node that gets from [E2] the answers it got from [E1] does with
    [E2] what it did with [E1]. *)
Lemma replay_triage_router (st : State) :
  Forall (same_answer E1 E2) (fst (triage_router E1 st)) ->
  triage_router E2 st = triage_router E1 st.
Proof.
  pose proof Hprog as (_ & _ & _ & _ & _ & _ & _ & Hf & _).
  unfold triage_router.
  destruct (get_email_input st) as [e|x]; [|reflexivity].
  rewrite !bind_lift_Ok. destruct e as [a t s th]. cbn [parse_email].
  unfold call_llm_router. rewrite same_triage_prompt. intros H.
  apply Forall_trace_bind in H. destruct H as [H _].
  cbn [fst] in H. inversion H as [|? ? Hr _]; subst.
  cbn [same_answer] in Hr. rewrite Hr.
  destruct (llm_router E1 (triage_prompt E1 (Email a t s th))) as [r|x];
    [|reflexivity].
  rewrite !bind_Ok, Hf. reflexivity.
Qed.

Lemma replay_run_tool_calls :
  forall tcs acc,
    Forall (same_answer E1 E2) (fst (run_tool_calls E1 tcs acc)) ->
    run_tool_calls E2 tcs acc = run_tool_calls E1 tcs acc.
Proof.
  induction tcs as [|tc rest IH]; intros acc H; [reflexivity|].
  rewrite !run_tool_calls_cons in *.
  destruct (get_tool (tc_name tc)) as [t|x]; [|reflexivity].
  rewrite !bind_lift_Ok in *. unfold call_invoke in *.
  apply Forall_trace_bind in H. destruct H as [Hi Hrest].
  cbn [fst snd] in Hi, Hrest. inversion Hi as [|? ? Hinv _]; subst.
  cbn [same_answer] in Hinv. rewrite Hinv.
  destruct (invoke E1 t (tc_args tc)) as [o|x]; [|reflexivity].
  rewrite !bind_Ok. rewrite (IH _ (Hrest o eq_refl)). reflexivity.
Qed.

Lemma replay_tool_handler (st : State) :
  Forall (same_answer E1 E2) (fst (tool_handler E1 st)) ->
  tool_handler E2 st = tool_handler E1 st.
Proof.
  unfold tool_handler.
  destruct (last_message (messages st)) as [m|x]; [|reflexivity].
  rewrite !bind_lift_Ok.
  destruct (tool_calls_of m) as [tcs|x]; [|reflexivity].
  rewrite !bind_lift_Ok. intros H.
  apply Forall_trace_bind in H. destruct H as [H _].
  rewrite (replay_run_tool_calls tcs [] H). reflexivity.
Qed.

Lemma replay_agent_step (n : node) (st : State) :
  Forall (same_answer E1 E2) (fst (agent_step E1 n st)) ->
  agent_step E2 n st = agent_step E1 n st.
Proof.
  destruct n.
  - rewrite !agent_step_llm_call, same_agent_system_message.
    cbn [fst]. intros H.
    inversion H as [|? ? _ H']; subst. inversion H' as [|? ? Hact _]; subst.
    cbn [same_answer] in Hact.
    change (agent_system_message E1 :: messages st)
      with ([agent_system_message E1] ++ messages st) in Hact.
    rewrite Hact. reflexivity.
  - rewrite !agent_step_tool_handler. unfold trace_of, outcome_of.
    cbn [fst]. intros H. inversion H as [|? ? _ H']; subst.
    rewrite (replay_tool_handler st H'). reflexivity.
Qed.

Lemma replay_agent_loop :
  forall fuel n st,
    Forall (same_answer E1 E2) (fst (agent_loop E1 fuel n st)) ->
    agent_loop E2 fuel n st = agent_loop E1 fuel n st.
Proof.
  induction fuel as [|fuel IH]; intros n st H; [reflexivity|].
  rewrite !agent_loop_S in *.
  apply Forall_trace_bind in H. destruct H as [Hstep Hrest].
  rewrite (replay_agent_step n st Hstep).
  destruct (agent_step E1 n st) as [tr [[nx st']|x]]; [|reflexivity].
  rewrite !bind_Ok. cbn [fst snd] in *. specialize (Hrest _ eq_refl).
  cbn [fst snd] in Hrest. destruct nx as [n'|]; [|reflexivity].
  rewrite (IH n' st' Hrest). reflexivity.
Qed.

Lemma replay_overall_workflow (input : State) :
  Forall (same_answer E1 E2) (fst (overall_workflow E1 input)) ->
  overall_workflow E2 input = overall_workflow E1 input.
Proof.
  pose proof Hprog as (_ & _ & _ & _ & _ & _ & _ & _ & Hl).
  rewrite !overall_workflow_unfold, !bind_emit. cbn [fst]. intros H.
  inversion H as [|? ? _ H']; subst. clear H.
  apply Forall_trace_bind in H'. destruct H' as [Htri Hrest].
  rewrite (replay_triage_router input Htri).
  destruct (triage_router E1 input) as [tr [cmd|x]]; [|reflexivity].
  rewrite !bind_Ok. destruct (goto cmd) eqn:Hgoto; [|reflexivity].
  specialize (Hrest cmd eq_refl). cbv beta in Hrest.
  rewrite Hgoto in Hrest. cbv beta iota in Hrest.
  assert (Hagent : Forall (same_answer E1 E2)
                     (fst (agent E1 (apply_update input (cmd_update cmd))))).
  { destruct (agent E1 (apply_update input (cmd_update cmd))) as [tra ra].
    cbn [fst] in *. inversion Hrest; subst; assumption. }
  unfold agent in *.
  rewrite !bind_emit, <- Hl, (replay_agent_loop _ _ _ Hagent). reflexivity.
Qed.

End Replay.

(** ** The order of the tool results in a run *)

(** Without the message ids, the tool results a run of the agent graph
    adds answer the calls that were asked for, in the order of the
    requests: first those the last turn was waiting for when the run
    started at [tool_handler], then those of the assistant turns added,
    but for the last. *)
Lemma agent_loop_results_in_request_order (E : Env) :
  forall fuel n st tr final,
    agent_loop E fuel n st = (tr, Ok final) ->
    exists added content tcs,
      messages final = messages st ++ added ++ [AIMessage content tcs] /\
      result_ids added
      = map tc_id (match n with
                   | node_llm_call => []
                   | node_tool_handler =>
                       match last (messages st) with
                       | Some (AIMessage _ pending) => pending
                       | _ => []
                       end
                   end ++ requested added).
Proof.
  induction fuel as [|fuel IH]; intros n st tr final Hrun; [discriminate|].
  apply agent_loop_Ok in Hrun.
  destruct Hrun as (fuel' & tr1 & nx & st' & tr2 & Hf & Hstep & _ & Hrest).
  inversion Hf; subst fuel'; clear Hf.
  apply agent_step_Ok in Hstep.
  destruct Hstep as (_ & _ & [(-> & content & tc & rest & _ & _ & Hms & Hnx)
                             | (-> & pre & content & tcs & results & tr'
                                & Hst & Hcalls & _ & Hms & Hnx)]).
  - destruct (String.eqb (tc_name tc) "Done"); subst nx.
    + destruct Hrest as [_ ->]. exists [], content, (tc :: rest).
      split; [exact Hms | reflexivity].
    + destruct (IH _ _ _ _ Hrest) as (added & c' & tcs' & Hfin & Hres).
      rewrite Hms, last_snoc in Hres.
      exists (AIMessage content (tc :: rest) :: added), c', tcs'. split.
      * rewrite Hfin, Hms, <- app_assoc. reflexivity.
      * exact Hres.
  - subst nx.
    destruct (IH _ _ _ _ Hrest) as (added & c' & tcs' & Hfin & Hres).
    destruct (run_tool_calls_Ok E _ _ _ _ Hcalls) as (new & Hnew & Hfa & _).
    simpl in Hnew. subst new.
    destruct (tool_messages_result_ids E _ _ Hfa) as [Hids _].
    destruct (run_tool_calls_Ok_requested E _ _ _ Hcalls) as [_ Hnone].
    exists (results ++ added), c', tcs'. split.
    + rewrite Hfin, Hms, <- !app_assoc. reflexivity.
    + rewrite Hst, last_snoc, result_ids_app, requested_app, Hids, Hres,
        Hnone, !map_app. reflexivity.
Qed.

(** The same for the workflow: the results it adds answer the calls of
    the assistant turns it adds, in the order of the requests; the calls
    without a result are the last ones requested. *)
Lemma overall_workflow_results_in_request_order (E : Env) (input : State)
    tr final :
  overall_workflow E input = (tr, Ok final) ->
  exists added unanswered,
    messages final = messages input ++ added /\
    map tc_id (requested added) = result_ids added ++ map tc_id unanswered.
Proof.
  intros Hrun. apply overall_workflow_Ok in Hrun.
  destruct Hrun as (e & r & _ & _ & [(_ & ->)
                                    | (_ & seed & tr2 & Hq & _ & Hr & Hag)]).
  - exists [], []. cbn [messages]. rewrite app_nil_r. auto.
  - unfold agent in Hag.
    apply agent_loop_results_in_request_order in Hag.
    destruct Hag as (added & content & tcs & Hfin & Hres).
    cbn [messages app] in Hfin, Hres.
    exists ([seed] ++ added ++ [AIMessage content tcs]), tcs. split.
    + rewrite Hfin, <- app_assoc. reflexivity.
    + rewrite !requested_app, !result_ids_app, Hq, Hr, Hres. cbn.
      rewrite !app_nil_r, map_app. reflexivity.
Qed.

(** ** Two executions of the workflow *)

(** C8, as the specification words it, fails.  Two executions of the
    workflow on the same email, with the same router model, agent model
    and tools, the replies of the model carrying the same ids in both,
    end in conversation states that differ: the runtime draws the ids of
    the turns the nodes build (the request to respond, the tool results)
    anew in each execution.  The turns, the ids left out, and the
    classification decision are the same. *)
Lemma replay_differs_in_message_ids :
  let E := sample_env (sample_router "respond") model_three_rounds 25 in
  (forall k, reply_id source_a k = reply_id source_b k) /\
  exists final_a final_b,
    outcome_of (overall_workflow_ids source_a E sample_istate) = Ok final_a /\
    outcome_of (overall_workflow_ids source_b E sample_istate) = Ok final_b /\
    imessages final_a <> imessages final_b /\
    map snd (imessages final_a) = map snd (imessages final_b) /\
    iclassification_decision final_a = iclassification_decision final_b.
Proof.
  intros E. split; [reflexivity|].
  destruct (overall_workflow_ids source_a E sample_istate)
    as [tr_a [final_a|x]] eqn:Ha; [|vm_compute in Ha; discriminate Ha].
  destruct (overall_workflow_ids source_b E sample_istate)
    as [tr_b [final_b|x]] eqn:Hb; [|vm_compute in Hb; discriminate Hb].
  exists final_a, final_b. split; [reflexivity|]. split; [reflexivity|].
  vm_compute in Ha, Hb. inversion Ha; subst. inversion Hb; subst.
  split; [discriminate|]. split; reflexivity.
Qed.

(** C8, as the code keeps it.  Take two executions of the workflow on the
    same input, by the same program, in each of which the message ids
    are new.  If every call the first execution makes, to the router
    model, to the agent model or to a tool, gets in the second the answer
    it got in the first, then the second execution makes the same calls
    in the same order and has the same outcome up to the message ids:
    the same exception, or final states with the same turns in the same
    order, the same classification decision and the same email.  The
    turns are those of the input followed by the turns added, among
    which the tool results stand in the order in which the calls were
    requested. *)
Theorem replay_agrees_up_to_message_ids :
  forall (E1 E2 : Env) (src1 src2 : IdSource) (input : IState),
    same_program E1 E2 ->
    Forall (same_answer E1 E2)
           (trace_of (overall_workflow_ids src1 E1 input)) ->
    fresh_draws src1 input ->
    fresh_draws src2 input ->
    trace_of (overall_workflow_ids src2 E2 input)
    = trace_of (overall_workflow_ids src1 E1 input) /\
    (forall x,
        outcome_of (overall_workflow_ids src1 E1 input) = Raise x <->
        outcome_of (overall_workflow_ids src2 E2 input) = Raise x) /\
    (forall final1,
        outcome_of (overall_workflow_ids src1 E1 input) = Ok final1 ->
        exists final2,
          outcome_of (overall_workflow_ids src2 E2 input) = Ok final2 /\
          map snd (imessages final2) = map snd (imessages final1) /\
          iclassification_decision final2 = iclassification_decision final1 /\
          iemail_input final2 = iemail_input final1 /\
          exists added unanswered,
            map snd (imessages final2) = map snd (imessages input) ++ added /\
            map tc_id (requested added)
            = result_ids added ++ map tc_id unanswered).
Proof.
  intros E1 E2 src1 src2 input Hprog Hrec Hf1 Hf2.
  pose proof (overall_workflow_ids_erase src1 E1 input Hf1) as H1.
  pose proof (overall_workflow_ids_erase src2 E2 input Hf2) as H2.
  assert (Hsame : overall_workflow E2 (erase input)
                  = overall_workflow E1 (erase input)).
  { apply (replay_overall_workflow E1 E2 Hprog). rewrite <- H1. exact Hrec. }
  rewrite Hsame in H2. clear Hsame Hrec.
  unfold map_outcome, trace_of, outcome_of in *.
  destruct (overall_workflow_ids src1 E1 input) as [tr1 [f1|x1]];
    destruct (overall_workflow_ids src2 E2 input) as [tr2 [f2|x2]];
    cbn [fst snd] in *; rewrite <- H1 in H2; inversion H2; subst.
  - split; [reflexivity|]. split; [intros x; split; discriminate|].
    intros final1 Hfin. inversion Hfin; subst final1. exists f2.
    split; [reflexivity|].
    symmetry in H1. apply overall_workflow_results_in_request_order in H1.
    destruct H1 as (added & unanswered & Hadd & Hord).
    cbn [erase messages] in Hadd.
    assert (Hturns : map snd (imessages f2) = map snd (imessages f1))
      by assumption.
    split; [exact Hturns|]. split; [assumption|]. split; [assumption|].
    exists added, unanswered. rewrite Hturns. auto.
  - split; [reflexivity|]. split; [intros x; split; auto|].
    intros final1 Hfin. discriminate Hfin.
Qed.

(** The recording answers the calls of the recorded run as the run's
    model and tools did. *)
Lemma sample_recording_answers_alike :
  let E := sample_env (sample_router "respond") model_three_rounds 25 in
  same_program E (with_model_and_tools E model_recorded invoke_recorded) /\
  Forall (same_answer E (with_model_and_tools E model_recorded
                           invoke_recorded))
         (trace_of (overall_workflow_ids source_a E sample_istate)).
Proof.
  intros E. split.
  - repeat split.
  - vm_compute. repeat constructor.
Qed.

Lemma replay_agrees_up_to_message_ids_witness :
  let E := sample_env (sample_router "respond") model_three_rounds 25 in
  trace_of (overall_workflow_ids
              source_b (with_model_and_tools E model_recorded invoke_recorded)
              sample_istate)
  = trace_of (overall_workflow_ids source_a E sample_istate).
Proof.
  intros E.
  exact (proj1 (replay_agrees_up_to_message_ids
                  E (with_model_and_tools E model_recorded invoke_recorded)
                  source_a source_b sample_istate
                  (proj1 sample_recording_answers_alike)
                  (proj2 sample_recording_answers_alike)
                  (fresh_draws_letters "a" "r" eq_refl eq_refl)
                  (fresh_draws_letters "b" "r" eq_refl eq_refl))).
Defined.

(** The answers of the tools have to be the same: with the same models
    and tools that answer otherwise the turns differ. *)
Example replay_with_other_tool_results_differs :
  let E1 := sample_env (sample_router "respond") model_three_rounds 25 in
  let E2 := with_model_and_tools E1 model_three_rounds invoke_busy in
  exists final1 final2,
    outcome_of (overall_workflow_ids source_a E1 sample_istate) = Ok final1 /\
    outcome_of (overall_workflow_ids source_a E2 sample_istate) = Ok final2 /\
    map snd (imessages final1) <> map snd (imessages final2).
Proof.
  intros E1 E2.
  destruct (overall_workflow_ids source_a E1 sample_istate)
    as [tr1 [final1|x]] eqn:H1; [|vm_compute in H1; discriminate H1].
  destruct (overall_workflow_ids source_a E2 sample_istate)
    as [tr2 [final2|x]] eqn:H2; [|vm_compute in H2; discriminate H2].
  exists final1, final2. split; [reflexivity|]. split; [reflexivity|].
  vm_compute in H1, H2. inversion H1; subst. inversion H2; subst.
  discriminate.
Qed.

(** The message ids have to be new: when the reply of the model carries
    an id the runtime has drawn for a turn of the conversation, the
    reply takes the place of that turn.  Here the reply carries the id
    "a".  In the execution that drew "a" for the request to respond the
    run succeeds with a conversation of one turn; in the execution that
    drew "b" for it the conversation has both turns. *)
Example reply_with_a_known_id_replaces_the_turn :
  let E := sample_env (sample_router "respond") model_done_then_write 25 in
  exists final_a final_b,
    outcome_of (overall_workflow_ids source_reusing_a E sample_istate)
    = Ok final_a /\
    outcome_of (overall_workflow_ids source_reusing_b E sample_istate)
    = Ok final_b /\
    imessages final_a = [("a", AIMessage "" [call_done; call_write])] /\
    length (imessages final_b) = 2.
Proof.
  intros E.
  destruct (overall_workflow_ids source_reusing_a E sample_istate)
    as [tr_a [final_a|x]] eqn:Ha; [|vm_compute in Ha; discriminate Ha].
  destruct (overall_workflow_ids source_reusing_b E sample_istate)
    as [tr_b [final_b|x]] eqn:Hb; [|vm_compute in Hb; discriminate Hb].
  exists final_a, final_b. split; [reflexivity|]. split; [reflexivity|].
  vm_compute in Ha, Hb. inversion Ha; subst. inversion Hb; subst.
  split; reflexivity.
Qed.

(** ** Runs of the agent graph that succeed, with the message ids *)

Lemma follow_should_continue_END (st : State) :
  follow_should_continue st = Ok None ->
  exists pre content tc rest,
    messages st = pre ++ [AIMessage content (tc :: rest)] /\
    tc_name tc = "Done".
Proof.
  unfold follow_should_continue, should_continue.
  destruct (last_message (messages st)) as [m|x] eqn:Hl; [|discriminate].
  apply last_message_Ok in Hl. destruct Hl as [pre Hpre].
  destruct m as [c|c|c tcs|c i]; cbn [tool_calls_of]; try discriminate.
  destruct tcs as [|tc rest]; [discriminate|].
  rewrite for_return_should_continue. unfold should_continue_body.
  destruct (String.eqb (tc_name tc) "Done") eqn:Hd; [|discriminate].
  intros _. exists pre, c, tc, rest. split; [exact Hpre|].
  apply String.eqb_eq. exact Hd.
Qed.

Lemma map_snd_snoc (l : list stamped) (ms : list message) (m : message) :
  map snd l = ms ++ [m] ->
  exists l' id, l = l' ++ [(id, m)] /\ map snd l' = ms.
Proof.
  intros H. destruct l as [|[id m'] l _] using rev_ind.
  - destruct ms; discriminate H.
  - rewrite map_app in H. cbn [map snd] in H. apply app_inj_tail in H.
    destruct H as [H1 H2]. subst m'. exists l, id. auto.
Qed.

(** Whatever the message ids, a run that succeeds stopped at a state in
    which [should_continue] returned [END]. *)
Lemma agent_loop_ids_stops_at_END (src : IdSource) (E : Env) :
  forall fuel n s tr final,
    agent_loop_ids src E fuel n s = (tr, Ok final) ->
    follow_should_continue (erase final) = Ok None.
Proof.
  induction fuel as [|fuel IH]; intros n s tr final Hrun; [discriminate|].
  rewrite agent_loop_ids_S in Hrun. apply bind_inv_Ok in Hrun.
  destruct Hrun as (tr1 & [nx s'] & tr2 & Hstep & Hrest & _).
  cbn [fst snd] in Hrest. destruct nx as [n'|].
  - exact (IH _ _ _ _ Hrest).
  - destruct fuel; [discriminate|]. inversion Hrest; subst final.
    revert Hstep. unfold agent_step_ids. rewrite bind_emit. destruct n.
    + destruct (llm_call E (erase s)) as [tr' [u|x]];
        [|rewrite bind_Raise; discriminate].
      rewrite bind_Ok. cbn [fst snd].
      destruct (follow_should_continue
                  (erase (apply_update_ids src s u (reply_id src))))
        as [nx|x] eqn:Hnext.
      * rewrite bind_lift_Ok. cbn [ret fst snd]. intros H.
        inversion H; subst. exact Hnext.
      * unfold lift. rewrite bind_Raise. discriminate.
    + destruct (tool_handler E (erase s)) as [tr' [u|x]];
        [rewrite bind_Ok | rewrite bind_Raise]; cbn [ret fst snd];
        intros H; inversion H.
Qed.

(** A run of the agent graph that succeeds ends with a conversation
    whose last turn is an assistant turn with "Done" as its first tool
    call, whatever the message ids.  When the message ids of the
    execution are new, the run has only appended to the conversation it
    was given, that turn last. *)
Theorem completed_run_ends_with_done :
  forall (src : IdSource) (E : Env) (fuel : nat) (n : node) (s : IState)
         (tr : list event) (final : IState),
    agent_loop_ids src E fuel n s = (tr, Ok final) ->
    (exists before id content tc rest,
       imessages final = before ++ [(id, AIMessage content (tc :: rest))] /\
       tc_name tc = "Done") /\
    (fresh_draws src s ->
     exists added id content tc rest,
       imessages final
       = imessages s ++ added ++ [(id, AIMessage content (tc :: rest))] /\
       tc_name tc = "Done").
Proof.
  intros src E fuel n s tr final Hrun. split.
  - pose proof (agent_loop_ids_stops_at_END src E _ _ _ _ _ Hrun) as Hend.
    apply follow_should_continue_END in Hend.
    destruct Hend as (pre & content & tc & rest & Hms & Hd).
    cbn [erase messages] in Hms. apply map_snd_snoc in Hms.
    destruct Hms as (before & id & Hfin & _).
    exists before, id, content, tc, rest. auto.
  - intros Hfresh.
    destruct (agent_loop_ids_erase src E fuel n s Hfresh) as [Herase Happ].
    destruct (Happ final) as [added' Hadd];
      [rewrite Hrun; reflexivity|].
    pose proof (map_outcome_Ok _ _ _ _ _ Herase Hrun) as Hplain.
    apply agent_loop_ends_with_done in Hplain.
    destruct Hplain as (added & content & tc & rest & Hms & Hd).
    cbn [erase messages] in Hms. rewrite Hadd, map_app in Hms.
    apply app_inv_head in Hms.
    apply map_snd_snoc in Hms. destruct Hms as (l' & id & Hl & _).
    exists l', id, content, tc, rest. split; [|exact Hd].
    rewrite Hadd, Hl. reflexivity.
Qed.

Lemma completed_run_ends_with_done_witness :
  let E := sample_env (sample_router "respond") model_three_rounds 25 in
  exists tr final added id content tc rest,
    agent_loop_ids source_a E 25 node_llm_call sample_istate
    = (tr, Ok final) /\
    imessages final
    = imessages sample_istate ++ added
      ++ [(id, AIMessage content (tc :: rest))] /\
    tc_name tc = "Done".
Proof.
  intros E.
  destruct (agent_loop_ids source_a E 25 node_llm_call sample_istate)
    as [tr [final|x]] eqn:Hrun; [|vm_compute in Hrun; discriminate Hrun].
  destruct (proj2 (completed_run_ends_with_done
                     source_a E 25 node_llm_call sample_istate tr final Hrun)
                  (fresh_draws_letters "a" "r" eq_refl eq_refl))
    as (added & id & content & tc & rest & Hfin & Hd).
  exists tr, final, added, id, content, tc, rest. auto.
Defined.

(** In a run of the agent graph that succeeds and whose message
    ids are new, every call to the model is given the system prompt
    followed by a conversation that starts with the one the run was
    given and is an initial part of the final one: the model sees
    everything said so far, tool results included. *)
Theorem model_is_shown_the_conversation_so_far :
  forall (src : IdSource) (E : Env) (fuel : nat) (n : node) (s : IState)
         (tr : list event) (final : IState),
    fresh_draws src s ->
    agent_loop_ids src E fuel n s = (tr, Ok final) ->
    Forall (fun prompt =>
              exists added rest,
                prompt = [agent_system_message E]
                         ++ map snd (imessages s) ++ added /\
                map snd (imessages final)
                = map snd (imessages s) ++ added ++ rest)
           (act_prompts tr).
Proof.
  intros src E fuel n s tr final Hfresh Hrun.
  destruct (agent_loop_ids_erase src E fuel n s Hfresh) as [Herase _].
  pose proof (map_outcome_Ok _ _ _ _ _ Herase Hrun) as Hplain.
  exact (agent_loop_prompts_extend E fuel n (erase s) tr (erase final)
           Hplain).
Qed.

Lemma model_is_shown_the_conversation_so_far_witness :
  let E := sample_env (sample_router "respond") model_three_rounds 25 in
  exists tr final,
    agent_loop_ids source_a E 25 node_llm_call sample_istate
    = (tr, Ok final) /\
    length (act_prompts tr) = 3 /\
    Forall (fun prompt =>
              exists added rest,
                prompt = [agent_system_message E]
                         ++ map snd (imessages sample_istate) ++ added /\
                map snd (imessages final)
                = map snd (imessages sample_istate) ++ added ++ rest)
           (act_prompts tr).
Proof.
  intros E.
  destruct (agent_loop_ids source_a E 25 node_llm_call sample_istate)
    as [tr [final|x]] eqn:Hrun; [|vm_compute in Hrun; discriminate Hrun].
  exists tr, final. split; [reflexivity|]. split.
  - vm_compute in Hrun. inversion Hrun; subst. reflexivity.
  - exact (model_is_shown_the_conversation_so_far
             source_a E 25 node_llm_call sample_istate tr final
             (fresh_draws_letters "a" "r" eq_refl eq_refl) Hrun).
Defined.
